(** * Normalization layers of llava/model/language_model/mpt/norm.py

    A shallow embedding of the module: the autocast-aware precision cast,
    [rms_norm], the layers [LPLayerNorm], [RMSNorm], [LPRMSNorm] and the
    registry [NORM_CLASS_REGISTRY], over a model of the PyTorch operations
    the module calls.

    Layout:
    - [torch]: dtypes, IEEE-754 scalars (the Standard Library's [SpecFloat],
      round to nearest even), tensors with their shape and device, and the
      operators used by norm.py with the errors they raise;
    - the interpreter state (module globals and torch's autocast state) and
      the state-and-exception monad the Python functions run in;
    - the functions and classes of norm.py, in source order;
    - lemmas on scalars, then on tensors, then the properties of the module. *)

From Stdlib Require Import ZArith Bool Lia.
From Stdlib Require Import Floats.SpecFloat.
From stdpp Require Import base option list strings gmap.

Local Open Scope Z_scope.

(** ** The parts of PyTorch used by norm.py *)

Module torch.

(** The floating dtypes. *)
Inductive dtype := float16 | bfloat16 | float32 | float64.

#[global] Instance dtype_eq_dec : EqDecision dtype.
Proof. solve_decision. Defined.

(** Mantissa width (with the implicit bit) and the exponent of infinity. *)
Definition prec (d : dtype) : Z :=
  match d with float16 => 11 | bfloat16 => 8 | float32 => 24 | float64 => 53 end.

Definition emax (d : dtype) : Z :=
  match d with float16 => 16 | bfloat16 => 128 | float32 => 128 | float64 => 1024 end.

(** [torch.promote_types] on the floating dtypes. *)
Definition promote_types (a b : dtype) : dtype :=
  match a, b with
  | float64, _ | _, float64 => float64
  | float32, _ | _, float32 => float32
  | float16, float16 => float16
  | bfloat16, bfloat16 => bfloat16
  | float16, bfloat16 | bfloat16, float16 => float32
  end.

(** The type the kernels compute in: 16-bit operands are widened to
    float32 for the arithmetic and the result is rounded back. *)
Definition opmath (d : dtype) : dtype :=
  match d with float16 | bfloat16 => float32 | _ => d end.

(** *** Scalars

    Every operation is rounded to nearest even. torch fixes neither the
    order in which a reduction adds its terms nor the instructions behind
    [rsqrt] and [layer_norm], and another order can change the last bit
    of an entry; the model adds from left to right and divides one by the
    square root. *)

(** Conversion of a scalar to the format of [d]. *)
Definition round_to (d : dtype) (v : spec_float) : spec_float :=
  match v with
  | S754_finite s m e => binary_round (prec d) (emax d) s m e
  | _ => v
  end.

Definition of_Z (d : dtype) (z : Z) : spec_float :=
  binary_normalize (prec d) (emax d) z 0 false.

Definition unop (f : Z -> Z -> spec_float -> spec_float)
    (d : dtype) (a : spec_float) : spec_float :=
  let o := opmath d in
  round_to d (f (prec o) (emax o) (round_to o a)).

Definition binop (f : Z -> Z -> spec_float -> spec_float -> spec_float)
    (d : dtype) (a b : spec_float) : spec_float :=
  let o := opmath d in
  round_to d (f (prec o) (emax o) (round_to o a) (round_to o b)).

Definition fmul := binop SFmul.
Definition fadd := binop SFadd.

(** [1 / sqrt v], each step rounded in the compute type. *)
Definition SFrsqrt (p e : Z) (v : spec_float) : spec_float :=
  SFdiv p e (SFone p e) (SFsqrt p e v).

Definition frsqrt := unop SFrsqrt.

(** Sum and mean of one slice, accumulated in the compute type. *)
Definition SFsum (p e : Z) (l : list spec_float) : spec_float :=
  fold_left (SFadd p e) l (S754_zero false).

Definition fmean (d : dtype) (l : list spec_float) : spec_float :=
  let o := opmath d in
  round_to d (SFdiv (prec o) (emax o)
                (SFsum (prec o) (emax o) (map (round_to o) l))
                (of_Z o (Z.of_nat (length l)))).

Definition is_zero (v : spec_float) : bool :=
  match v with S754_zero _ => true | _ => false end.

(** Neither NaN nor an infinity. *)
Definition is_finite (v : spec_float) : bool :=
  match v with S754_zero _ | S754_finite _ _ _ => true | _ => false end.

(** *** Shapes

    A tensor with at least one dimension, none of the leading ones of size
    zero, as the nest of its slices along the trailing dimension: a
    one-dimensional tensor is one slice, a tensor with more dimensions
    stacks the tensors along its first dimension. *)
#[warnings="-register-all"] Inductive nested (R : Type) : Type :=
  | Slice (row : R)
  | Stack (first : nested R) (rest : list (nested R)).
Arguments Slice {R} row.
Arguments Stack {R} first rest.

(** The same function on every slice. *)
Fixpoint nmap {R S} (f : R -> S) (v : nested R) : nested S :=
  match v with
  | Slice r => Slice (f r)
  | Stack a l => Stack (nmap f a) (map (nmap f) l)
  end.

(** The slices in row-major order of the leading dimensions. *)
Fixpoint rows {R} (v : nested R) : list R :=
  match v with
  | Slice r => [r]
  | Stack a l => rows a ++ concat (map rows l)
  end.

(** The number of leading dimensions. *)
Fixpoint depth {R} (v : nested R) : nat :=
  match v with
  | Slice _ => O
  | Stack a _ => S (depth a)
  end.

(** A tensor of two dimensions from its slices. *)
Definition matrix {R} (r : R) (rs : list R) : nested R :=
  Stack (Slice r) (map Slice rs).

(** All the results, or none when one is missing. *)
Definition collect {A} (l : list (option A)) : option (list A) :=
  foldr (fun o acc =>
           match o, acc with
           | Some a, Some l => Some (a :: l)
           | _, _ => None
           end) (Some []) l.

Definition stack {R} (a : option (nested R)) (l : list (option (nested R)))
    : option (nested R) :=
  match a, collect l with
  | Some a, Some l => Some (Stack a l)
  | _, _ => None
  end.

(** Broadcasting of a binary operator over the leading dimensions, which
    are aligned from the right: the operand with fewer dimensions is
    paired with every tensor stacked in the other; along a dimension both
    have, the sizes are equal, or one of them is 1 and that tensor is
    repeated. Other sizes do not broadcast. [op] pairs two slices. *)
Fixpoint broadcast {R} (op : R -> R -> option R) (a : nested R)
    : nested R -> option (nested R) :=
  match a with
  | Slice r =>
      fix along (b : nested R) : option (nested R) :=
        match b with
        | Slice s => Slice <$> op r s
        | Stack b0 lb => stack (along b0) (map along lb)
        end
  | Stack a0 la =>
      fix along (b : nested R) : option (nested R) :=
        match b with
        | Slice _ =>
            stack (broadcast op a0 b) (map (fun a' => broadcast op a' b) la)
        | Stack b0 lb =>
            match Nat.compare (depth a0) (depth b0) with
            | Gt => stack (broadcast op a0 b) (map (fun a' => broadcast op a' b) la)
            | Lt => stack (along b0) (map along lb)
            | Eq =>
                if decide (length la = length lb)
                then stack (broadcast op a0 b0) (zip_with (broadcast op) la lb)
                else match la, lb with
                     | _, [] =>
                         stack (broadcast op a0 b0)
                           (map (fun a' => broadcast op a' b0) la)
                     | [], _ =>
                         stack (broadcast op a0 b0) (map (broadcast op a0) lb)
                     | _, _ => None
                     end
            end
        end
  end.

(** Broadcasting along the trailing dimension. *)
Definition pointwise (f : spec_float -> spec_float -> spec_float)
    (r s : list spec_float) : option (list spec_float) :=
  if decide (length r = length s) then Some (zip_with f r s)
  else match r, s with
       | _, [y] => Some (map (fun x => f x y) r)
       | [x], _ => Some (map (f x) s)
       | _, _ => None
       end.

(** *** Tensors

    A floating tensor: [device] is [tensor.device.type] (the process has
    one device of each type) and [value] holds the entries. *)
Record Tensor := mkTensor {
  t_dtype : dtype;
  device : string;
  value : nested (list spec_float)
}.

(** The slices along the trailing dimension, in row-major order. *)
Definition data (t : Tensor) : list (list spec_float) := rows (value t).

(** [tensor.to(dtype=d)]: the tensor itself when it already has dtype [d]. *)
Definition to (d : dtype) (t : Tensor) : Tensor :=
  if decide (t_dtype t = d) then t
  else mkTensor d (device t) (nmap (map (round_to d)) (value t)).

(** [tensor.float()] *)
Definition float (t : Tensor) : Tensor := to float32 t.

(** The tensor [a * b] when torch returns one: the operands are on one
    device and their shapes broadcast. *)
Definition product (a b : Tensor) : option Tensor :=
  if (device a =? device b)%string then
    let d := promote_types (t_dtype a) (t_dtype b) in
    mkTensor d (device a) <$> broadcast (pointwise (fmul d)) (value a) (value b)
  else None.

(** [a + s] for a Python float [s]: the dtype of the tensor is kept. *)
Definition add_scalar (a : Tensor) (s : spec_float) : Tensor :=
  mkTensor (t_dtype a) (device a)
    (nmap (map (fun v => fadd (t_dtype a) v s)) (value a)).

(** [a.mean(-1, keepdim=True)] *)
Definition mean_keepdim (a : Tensor) : Tensor :=
  mkTensor (t_dtype a) (device a)
    (nmap (fun row => [fmean (t_dtype a) row]) (value a)).

(** [torch.ones(n, dtype=d, device=dev)] and [torch.zeros(...)] *)
Definition ones (n : nat) (d : dtype) (dev : string) : Tensor :=
  mkTensor d dev (Slice (replicate n (of_Z d 1))).

Definition zeros (n : nat) (d : dtype) (dev : string) : Tensor :=
  mkTensor d dev (Slice (replicate n (S754_zero false))).

(** *** Process state, exceptions and the autocast context

    A Python call runs against the state of the process: torch's autocast
    state and the globals of the importing module (of type [G]). It either
    returns a value or raises, and hands the state on. *)
Inductive exception := NotImplementedError | RuntimeError.

Inductive result (A : Type) :=
  | Ok (a : A)
  | Raise (e : exception).
Arguments Ok {A} a.
Arguments Raise {A} e.

Definition result_map {A B} (f : A -> B) (r : result A) : result B :=
  match r with
  | Ok a => Ok (f a)
  | Raise e => Raise e
  end.

(** [autocast_enabled] is what [torch.is_autocast_enabled()] returns, the
    flag of the cuda backend. The flags of the other backends are not
    part of the state: neither the module nor an operator it calls reads
    them. [autocast_backends] lists the device types, besides "cuda" and
    "cpu", that this build of torch has an autocast backend for. *)
Record autocast_state := mkAutocast {
  autocast_enabled : bool;
  autocast_gpu_dtype : dtype;
  autocast_cpu_dtype : dtype;
  autocast_backends : list string
}.

Definition autocast_available (a : autocast_state) (device_type : string) : bool :=
  (device_type =? "cuda")%string || (device_type =? "cpu")%string
  || bool_decide (device_type ∈ autocast_backends a).

Record process (G : Type) := mkProcess {
  amp : autocast_state;
  globals : G
}.
Arguments mkProcess {G} amp globals.
Arguments amp {G} p.
Arguments globals {G} p.

Definition M (G A : Type) : Type := process G -> result A * process G.

Section with_globals.
Context {G : Type}.

Definition ret {A} (a : A) : M G A := fun p => (Ok a, p).

Definition raise {A} (e : exception) : M G A := fun p => (Raise e, p).

Definition bind {A B} (m : M G A) (k : A -> M G B) : M G B :=
  fun p =>
    match m p with
    | (Ok a, p') => k a p'
    | (Raise e, p') => (Raise e, p')
    end.

Definition is_autocast_enabled : M G bool :=
  fun p => (Ok (autocast_enabled (amp p)), p).

Definition get_autocast_gpu_dtype : M G dtype :=
  fun p => (Ok (autocast_gpu_dtype (amp p)), p).

Definition get_autocast_cpu_dtype : M G dtype :=
  fun p => (Ok (autocast_cpu_dtype (amp p)), p).

Definition set_autocast_enabled (b : bool) : M G unit :=
  fun p =>
    (Ok tt,
     mkProcess (mkAutocast b (autocast_gpu_dtype (amp p)) (autocast_cpu_dtype (amp p))
                  (autocast_backends (amp p)))
               (globals p)).

(** [with torch.autocast(enabled=b, device_type=t): body]. The
    constructor raises [RuntimeError] for a device type without autocast
    backend, whatever [b]. Entering sets the flag of the backend of [t]
    and leaving restores it, also when [body] raises; for "cuda" that is
    the flag of the state. *)
Definition autocast {A} (device_type : string) (enabled : bool) (body : M G A)
    : M G A :=
  fun p =>
    if autocast_available (amp p) device_type then
      if (device_type =? "cuda")%string then
        let prev := autocast_enabled (amp p) in
        let '(_, p1) := set_autocast_enabled enabled p in
        let '(r, p2) := body p1 in
        let '(_, p3) := set_autocast_enabled prev p2 in
        (r, p3)
      else body p
    else (Raise RuntimeError, p).

(** [a * b] on two tensors: [RuntimeError] when they are on different
    devices or their shapes do not broadcast. *)
Definition mul (a b : Tensor) : M G Tensor :=
  match product a b with
  | Some t => ret t
  | None => raise RuntimeError
  end.

(** Operators on autocast's float32 list ([pow], [rsqrt], [layer_norm])
    first widen their eligible operands: floating tensors on a cuda device,
    other than float64, while autocast is enabled. *)
Definition autocast_float32 (t : Tensor) : M G Tensor :=
  bind is_autocast_enabled (fun enabled =>
  ret (if enabled && (device t =? "cuda")%string
          && negb (bool_decide (t_dtype t = float64))
       then to float32 t else t)).

(** [a.pow(n)] for an integer [n]; [a.pow(2)] is [a * a]. *)
Fixpoint fpow (d : dtype) (v : spec_float) (n : nat) : spec_float :=
  match n with
  | O => of_Z d 1
  | S O => v
  | S (S _ as n') => fmul d v (fpow d v n')
  end.

Definition pow (a : Tensor) (n : nat) : M G Tensor :=
  bind (autocast_float32 a) (fun a =>
  ret (mkTensor (t_dtype a) (device a)
         (nmap (map (fun v => fpow (t_dtype a) v n)) (value a)))).

(** [torch.rsqrt(a)] *)
Definition rsqrt (a : Tensor) : M G Tensor :=
  bind (autocast_float32 a) (fun a =>
  ret (mkTensor (t_dtype a) (device a)
         (nmap (map (frsqrt (t_dtype a))) (value a)))).

(** [torch.nn.functional.layer_norm(input, (n,), weight, bias, eps)] over
    the trailing dimension. Each slice is centred and scaled by the
    reciprocal of its standard deviation, then the optional weight and
    bias are applied; all of it is computed in the compute type and the
    result is rounded to the dtype of the input once. *)
Definition layer_norm_slice (d : dtype) (eps : spec_float)
    (weight bias : option (list spec_float))
    (row : list spec_float) : list spec_float :=
  let o := opmath d in
  let xs := map (round_to o) row in
  let n := of_Z o (Z.of_nat (length row)) in
  let mu := SFdiv (prec o) (emax o) (SFsum (prec o) (emax o) xs) n in
  let centred := map (fun v => SFsub (prec o) (emax o) v mu) xs in
  let var :=
    SFdiv (prec o) (emax o)
      (SFsum (prec o) (emax o) (map (fun c => SFmul (prec o) (emax o) c c) centred))
      n in
  let rstd := SFrsqrt (prec o) (emax o) (SFadd (prec o) (emax o) var (round_to o eps)) in
  let normed := map (fun c => SFmul (prec o) (emax o) c rstd) centred in
  let scaled :=
    match weight with
    | Some ws => zip_with (fun v g => SFmul (prec o) (emax o) v (round_to o g)) normed ws
    | None => normed
    end in
  let shifted :=
    match bias with
    | Some bs => zip_with (fun v g => SFadd (prec o) (emax o) v (round_to o g)) scaled bs
    | None => scaled
    end in
  map (round_to d) shifted.

(** A weight or bias [layer_norm] accepts: of shape [(n,)], on the device
    and of the dtype of the input (the cpu kernels of some builds, which
    take float32 parameters with a 16-bit input, are left out). *)
Definition parameter_accepted (input : Tensor) (n : nat) (t : option Tensor) : bool :=
  match t with
  | Some t =>
      match value t with
      | Slice ws => bool_decide (length ws = n)
      | Stack _ _ => false
      end
      && (device t =? device input)%string
      && bool_decide (t_dtype t = t_dtype input)
  | None => true
  end.

Definition parameter_row (t : option Tensor) : option (list spec_float) :=
  match t with
  | Some t => match value t with Slice ws => Some ws | Stack _ _ => None end
  | None => None
  end.

Definition autocast_float32_opt (t : option Tensor) : M G (option Tensor) :=
  match t with
  | Some t => bind (autocast_float32 t) (fun t => ret (Some t))
  | None => ret None
  end.

(** [RuntimeError] when the trailing dimension of the input is not [n] or
    a parameter is not accepted. *)
Definition layer_norm (input : Tensor) (normalized_shape : nat)
    (weight bias : option Tensor) (eps : spec_float) : M G Tensor :=
  bind (autocast_float32 input) (fun input =>
  bind (autocast_float32_opt weight) (fun weight =>
  bind (autocast_float32_opt bias) (fun bias =>
  let d := t_dtype input in
  if forallb (fun row => bool_decide (length row = normalized_shape)) (data input)
     && parameter_accepted input normalized_shape weight
     && parameter_accepted input normalized_shape bias
  then ret (mkTensor d (device input)
              (nmap (layer_norm_slice d eps (parameter_row weight) (parameter_row bias))
                 (value input)))
  else raise RuntimeError))).

End with_globals.

End torch.

#[global] Instance M_ret {G} : MRet (torch.M G) := @torch.ret G.
#[global] Instance M_bind {G} : MBind (torch.M G) :=
  fun A B k m => torch.bind m k.

Import torch.

(** ** norm.py *)

(** The classes a registry entry can name: [torch.nn.LayerNorm] and the
    three classes defined by the module. *)
Inductive norm_class :=
  | cls_LayerNorm
  | cls_LPLayerNorm
  | cls_RMSNorm
  | cls_LPRMSNorm.

(** Functions of the module run in a process whose module globals hold the
    current value of the variable [NORM_CLASS_REGISTRY]. *)
Definition py : Type -> Type := M (gmap string norm_class).

(** The literal [1e-05]: the binary64 number nearest to 1/100000. *)
Definition eps_1e_05 : spec_float :=
  SFdiv 53 1024 (of_Z float64 1) (of_Z float64 100000).

Definition default_dtype (d : option dtype) : dtype := default float32 d.
Definition default_device (d : option string) : string := default "cpu"%string d.

Definition _cast_if_autocast_enabled (tensor : Tensor) : py Tensor :=
  enabled ← is_autocast_enabled;
  if enabled : bool then
    dtype ← (if (device tensor =? "cuda")%string then get_autocast_gpu_dtype
             else if (device tensor =? "cpu")%string then get_autocast_cpu_dtype
             else raise NotImplementedError);
    mret (to dtype tensor)
  else mret tensor.

(** [_cast_if_autocast_enabled(p) if p is not None else p] *)
Definition cast_parameter (p : option Tensor) : py (option Tensor) :=
  match p with
  | Some t => t' ← _cast_if_autocast_enabled t; mret (Some t')
  | None => mret None
  end.

(** [torch.nn.LayerNorm], the base class of [LPLayerNorm], for an integer
    [normalized_shape]. *)
Module LayerNorm.
Record t := mk {
  normalized_shape : nat;
  eps : spec_float;
  weight : option Tensor;
  bias : option Tensor
}.

Definition init (normalized_shape : nat) (eps : spec_float)
    (elementwise_affine : bool) (device : option string)
    (dtype : option dtype) : t :=
  if elementwise_affine then
    mk normalized_shape eps
       (Some (ones normalized_shape (default_dtype dtype) (default_device device)))
       (Some (zeros normalized_shape (default_dtype dtype) (default_device device)))
  else mk normalized_shape eps None None.

Definition forward (self : t) (input : Tensor) : py Tensor :=
  layer_norm input (normalized_shape self) (weight self) (bias self) (eps self).
End LayerNorm.

Module LPLayerNorm.
Definition init := LayerNorm.init.

Definition forward (self : LayerNorm.t) (x : Tensor) : py Tensor :=
  let module_device := device x in
  downcast_x ← _cast_if_autocast_enabled x;
  downcast_weight ← cast_parameter (LayerNorm.weight self);
  downcast_bias ← cast_parameter (LayerNorm.bias self);
  autocast module_device false
    (layer_norm downcast_x (LayerNorm.normalized_shape self)
       downcast_weight downcast_bias (LayerNorm.eps self)).
End LPLayerNorm.

Definition rms_norm (x : Tensor) (weight : option Tensor) (eps : spec_float)
    : py Tensor :=
  x2 ← pow x 2;
  r ← rsqrt (add_scalar (mean_keepdim x2) eps);
  output ← mul x r;
  match weight with
  | Some weight => mul output weight
  | None => mret output
  end.

Module RMSNorm.
Record t := mk {
  eps : spec_float;
  weight : option Tensor
}.

Definition init (normalized_shape : nat) (eps : spec_float) (weight : bool)
    (dtype : option dtype) (device : option string) : t :=
  if weight then
    mk eps (Some (ones normalized_shape (default_dtype dtype) (default_device device)))
  else mk eps None.

Definition forward (self : t) (x : Tensor) : py Tensor :=
  out ← rms_norm (float x) (weight self) (eps self);
  mret (to (t_dtype x) out).
End RMSNorm.

Module LPRMSNorm.
Definition init := RMSNorm.init.

Definition forward (self : RMSNorm.t) (x : Tensor) : py Tensor :=
  downcast_x ← _cast_if_autocast_enabled x;
  downcast_weight ← cast_parameter (RMSNorm.weight self);
  autocast (device x) false
    (out ← rms_norm downcast_x downcast_weight (RMSNorm.eps self);
     mret (to (t_dtype x) out)).
End LPRMSNorm.

Definition NORM_CLASS_REGISTRY : gmap string norm_class :=
  <["low_precision_rmsnorm"%string := cls_LPRMSNorm]>
  (<["rmsnorm"%string := cls_RMSNorm]>
  (<["low_precision_layernorm"%string := cls_LPLayerNorm]>
  (<["layernorm"%string := cls_LayerNorm]> ∅))).

(** Importing the module binds the registry. *)
Definition import_module (a : autocast_state) : process (gmap string norm_class) :=
  mkProcess a NORM_CLASS_REGISTRY.

(** An instance of one of the registered classes. *)
Inductive norm_module :=
  | obj_LayerNorm (self : LayerNorm.t)
  | obj_LPLayerNorm (self : LayerNorm.t)
  | obj_RMSNorm (self : RMSNorm.t)
  | obj_LPRMSNorm (self : RMSNorm.t).

(** [cls(normalized_shape, eps=eps, <affine>=affine, dtype=dtype,
    device=device)], where [<affine>] is [elementwise_affine] for the
    layer-norm classes and [weight] for the RMS classes. *)
Definition instantiate (cls : norm_class) (normalized_shape : nat)
    (eps : spec_float) (affine : bool) (dtype : option dtype)
    (device : option string) : norm_module :=
  match cls with
  | cls_LayerNorm =>
      obj_LayerNorm (LayerNorm.init normalized_shape eps affine device dtype)
  | cls_LPLayerNorm =>
      obj_LPLayerNorm (LPLayerNorm.init normalized_shape eps affine device dtype)
  | cls_RMSNorm =>
      obj_RMSNorm (RMSNorm.init normalized_shape eps affine dtype device)
  | cls_LPRMSNorm =>
      obj_LPRMSNorm (LPRMSNorm.init normalized_shape eps affine dtype device)
  end.

(** [m(x)]: the forward pass of the class of [m]. *)
Definition forward (m : norm_module) (x : Tensor) : py Tensor :=
  match m with
  | obj_LayerNorm self => LayerNorm.forward self x
  | obj_LPLayerNorm self => LPLayerNorm.forward self x
  | obj_RMSNorm self => RMSNorm.forward self x
  | obj_LPRMSNorm self => LPRMSNorm.forward self x
  end.

(** The operations of the module: its two functions, the constructors and
    the forward passes of its classes. *)
Inductive operation :=
  | op_cast (tensor : Tensor)
  | op_rms_norm (x : Tensor) (weight : option Tensor) (eps : spec_float)
  | op_init (cls : norm_class) (normalized_shape : nat) (eps : spec_float)
      (affine : bool) (dtype : option dtype) (device : option string)
  | op_forward (m : norm_module) (x : Tensor).

Definition discard {A} (m : py A) : py unit := _ ← m; mret tt.

Definition run_operation (o : operation) : py unit :=
  match o with
  | op_cast tensor => discard (_cast_if_autocast_enabled tensor)
  | op_rms_norm x weight eps => discard (rms_norm x weight eps)
  | op_init cls n eps affine dtype device =>
      discard (mret (instantiate cls n eps affine dtype device))
  | op_forward m x => discard (forward m x)
  end.

(** The process after a sequence of operations; an exception ends the
    operation that raised it, not the process. *)
Definition run_operations (os : list operation)
    (p : process (gmap string norm_class)) : process (gmap string norm_class) :=
  fold_left (fun p o => snd (run_operation o p)) os p.

(** ** The formula of RMS normalization, slice by slice

    [x * rsqrt(mean(x^2) + eps)] on one slice along the trailing dimension:
    the squares and their mean are taken in dtype [c] on the entries
    [conv v], and every entry [v] is multiplied by the same factor in
    dtype [d]. *)
Definition rms_factor (c : dtype) (conv : spec_float -> spec_float)
    (eps : spec_float) (slice : list spec_float) : spec_float :=
  frsqrt c (fadd c (fmean c (map (fun v => fmul c (conv v) (conv v)) slice)) eps).

Definition rms_slice (c d : dtype) (conv : spec_float -> spec_float)
    (eps : spec_float) (slice : list spec_float) : list spec_float :=
  map (fun v => fmul d v (rms_factor c conv eps slice)) slice.

(** The operand [pow] and [rsqrt] see: a 16-bit tensor on a cuda device is
    widened to float32 while autocast is enabled. *)
Definition autocast_applies (a : autocast_state) (t : Tensor) : bool :=
  autocast_enabled a && (device t =? "cuda")%string
  && match t_dtype t with float16 | bfloat16 => true | _ => false end.

Definition compute_dtype (a : autocast_state) (t : Tensor) : dtype :=
  if autocast_applies a t then float32 else t_dtype t.

Definition compute_conv (a : autocast_state) (t : Tensor)
    : spec_float -> spec_float :=
  if autocast_applies a t then round_to float32 else id.

(** The unscaled output as the specification words it. *)
Definition rms_unscaled (a : autocast_state) (x : Tensor) (eps : spec_float)
    : Tensor :=
  let c := compute_dtype a x in
  mkTensor (promote_types (t_dtype x) c) (device x)
    (nmap (rms_slice c (promote_types (t_dtype x) c) (compute_conv a x) eps)
       (value x)).

(** Elementwise scaling of every slice by a one-dimensional weight. *)
Definition scale_by (w : Tensor) (t : Tensor) : Tensor :=
  let d := promote_types (t_dtype t) (t_dtype w) in
  mkTensor d (device t)
    (nmap (fun slice => zip_with (fmul d) slice (concat (data w))) (value t)).

Definition rms_norm_spec (a : autocast_state) (x : Tensor)
    (weight : option Tensor) (eps : spec_float) : Tensor :=
  match weight with
  | Some w => scale_by w (rms_unscaled a x eps)
  | None => rms_unscaled a x eps
  end.

(** A weight fits an input when it is one-dimensional, as long as every
    slice of the input and on the device of the input. *)
Definition fits (x : Tensor) (weight : option Tensor) : Prop :=
  match weight with
  | Some w =>
      exists ws, value w = Slice ws /\ device w = device x /\
                 Forall (fun slice => length slice = length ws) (data x)
  | None => True
  end.

(** ** Definitions used in the statements *)

(** No operation of torch or of the module leaves a trace in the process:
    flags changed on entering a block are put back on leaving it. *)
Definition stateless {G A} (m : M G A) : Prop := forall p, snd (m p) = p.

(** The process inside a [with torch.autocast(enabled=b, device_type=t)]
    block. *)
Definition inside_autocast {G} (device_type : string) (b : bool) (p : process G)
    : process G :=
  if (device_type =? "cuda")%string then snd (set_autocast_enabled b p) else p.

(** The device types for which the precision cast knows an autocast dtype. *)
Definition known_device (dev : string) : bool :=
  ((dev =? "cuda") || (dev =? "cpu"))%string.

(** The dtype the precision cast converts to on a known device. *)
Definition autocast_dtype (a : autocast_state) (dev : string) : dtype :=
  if (dev =? "cuda")%string then autocast_gpu_dtype a else autocast_cpu_dtype a.

(** The precision cast raises on this tensor, or on this parameter. *)
Definition cast_raises (a : autocast_state) (t : Tensor) : bool :=
  autocast_enabled a && negb (known_device (device t)).

Definition cast_parameter_raises (a : autocast_state) (t : option Tensor) : bool :=
  match t with
  | Some t => cast_raises a t
  | None => false
  end.

(** What the precision cast returns when it does not raise. *)
Definition cast_value (a : autocast_state) (t : Tensor) : Tensor :=
  if autocast_enabled a then to (autocast_dtype a (device t)) t else t.

(** The outcome of [a * b]. *)
Definition mul_result (a b : Tensor) : result Tensor :=
  match product a b with
  | Some t => Ok t
  | None => Raise RuntimeError
  end.

(** The unscaled output, times the weight when there is one, with the
    broadcasting multiplication of tensors. *)
Definition rms_value (a : autocast_state) (x : Tensor) (weight : option Tensor)
    (eps : spec_float) : result Tensor :=
  match weight with
  | Some w => mul_result (rms_unscaled a x eps) w
  | None => Ok (rms_unscaled a x eps)
  end.

(** *** Scalars of a dtype *)

(** A finite scalar [m * 2^e] is of dtype [d] when [m] has at most
    [prec d] binary digits, [e] is at least the least exponent of [d] and
    the number lies below [2^emax d]. *)
Definition in_format (d : dtype) (v : spec_float) : Prop :=
  match v with
  | S754_finite _ m e =>
      Z.pos (digits2_pos m) <= prec d /\
      emin (prec d) (emax d) <= e /\
      Z.pos (digits2_pos m) + e <= emax d
  | _ => True
  end.

(** [o] holds every number of [c]. *)
Definition wider (c o : dtype) : Prop :=
  prec c <= prec o /\ emax c <= emax o /\
  emin (prec o) (emax o) <= emin (prec c) (emax c).

(** Strictly above zero: a positive finite number or plus infinity. *)
Definition is_positive (v : spec_float) : bool :=
  match v with
  | S754_finite false _ _ | S754_infinity false => true
  | _ => false
  end.

(** [mean + eps] on an all-zero slice: [eps] as dtype [c] holds it. *)
Definition rounded_eps (c : dtype) (eps : spec_float) : spec_float :=
  fadd c (S754_zero false) eps.

(** The entries of the weight, if any, are finite numbers of its dtype. *)
Definition finite_weight (weight : option Tensor) : Prop :=
  match weight with
  | Some w =>
      Forall (Forall (fun v => is_finite v = true /\ in_format (t_dtype w) v)) (data w)
  | None => True
  end.

(** *** Shapes, signs and squares *)

(** Two tensors have the same shape: the same nest of slices, of the same
    lengths. *)
Definition same_shape (a b : Tensor) : Prop :=
  nmap (@length spec_float) (value a) = nmap (@length spec_float) (value b).

(** [-t] *)
Definition neg (t : Tensor) : Tensor :=
  mkTensor (t_dtype t) (device t) (nmap (map SFopp) (value t)).

(** Zero or above, with the sign of plus: what a square can be. *)
Definition nonneg (v : spec_float) : bool :=
  match v with
  | S754_zero false | S754_finite false _ _ | S754_infinity false => true
  | _ => false
  end.

(** The entry [v] of [x] squared, as [x.pow(2)] computes it. *)
Definition squared (a : autocast_state) (x : Tensor) (v : spec_float) : spec_float :=
  fmul (compute_dtype a x) (compute_conv a x v) (compute_conv a x v).

(** *** Concrete inputs *)

(** Autocast off and on, with torch's default autocast dtypes, in a build
    with the cuda and cpu backends only. *)
Definition p_off : process (gmap string norm_class) :=
  import_module (mkAutocast false float16 bfloat16 []).

Definition p_on : process (gmap string norm_class) :=
  import_module (mkAutocast true float16 bfloat16 []).

(** A tensor of two dimensions with integer entries, from its slices. *)
Definition tensor_of (d : dtype) (dev : string) (r : list Z) (rs : list (list Z))
    : Tensor :=
  mkTensor d dev (matrix (map (of_Z d) r) (map (map (of_Z d)) rs)).

(** The input of the specification's scenario, shape [2,4]. *)
Definition x_scenario : Tensor :=
  tensor_of float32 "cpu" [1; 1; 1; 1] [[2; 0; 0; 0]].

Definition x_zero : Tensor := tensor_of float32 "cpu" [0; 0; 0; 0] [].

Definition x_bfloat16 : Tensor := tensor_of bfloat16 "cpu" [1; 2] [].

Definition x_cuda : Tensor := tensor_of float32 "cuda" [1; 2; 3; 4] [].

Definition x_mps : Tensor := tensor_of float32 "mps" [1; 2; 3; 4] [].

(** A tensor on the device "meta", for which torch has no autocast
    backend. *)
Definition x_meta : Tensor := tensor_of float32 "meta" [1; 2; 3; 4] [].

(** Layers of width 4 with a scale, on the device of the input they are
    applied to. *)
Definition rms_layer : RMSNorm.t := RMSNorm.init 4 eps_1e_05 true None None.

Definition rms_layer_mps : RMSNorm.t :=
  RMSNorm.init 4 eps_1e_05 true None (Some "mps"%string).

Definition rms_layer_meta : RMSNorm.t :=
  RMSNorm.init 4 eps_1e_05 true None (Some "meta"%string).

Definition rms_layer_cuda : RMSNorm.t :=
  RMSNorm.init 4 eps_1e_05 true None (Some "cuda"%string).

Definition ln_layer_cuda : LayerNorm.t :=
  LayerNorm.init 4 eps_1e_05 true (Some "cuda"%string) None.

(** [2.0 ** -200], a positive binary64 number below every positive
    float32 number. *)
Definition eps_tiny : spec_float := S754_finite false 4503599627370496 (-252).

(** Shape [2,4], one NaN in the first slice. *)
Definition x_nan : Tensor :=
  mkTensor float32 "cpu"
    (matrix [of_Z float32 1; S754_nan; of_Z float32 2; of_Z float32 3]
       [[of_Z float32 1; of_Z float32 1; of_Z float32 1; of_Z float32 1]]).

(** [300 * 300] is above 65504, the largest float16 number. *)
Definition x_large : Tensor := tensor_of float16 "cpu" [300; 1] [].

Ltac py_unfold :=
  unfold mbind, mret, M_bind, M_ret in *.

(** ** Lemmas on scalars

    Digit counts of mantissas, then what rounding, the square root and the
    division of [SpecFloat] return, by magnitude: the magnitude of
    [m * 2^e] is the number of binary digits of [m] plus [e]. *)

Lemma digits2_pos_iter_xO (m : positive) (k : positive) :
  Zpos (digits2_pos (Pos.iter xO m k)) = Zpos (digits2_pos m) + Zpos k.
Proof.
  induction k as [|k IH] using Pos.peano_ind.
  - simpl. lia.
  - rewrite Pos.iter_succ. simpl digits2_pos. lia.
Qed.

Lemma Zdigits2_shr_1 (mrs : shr_record) :
  Zdigits2 (shr_m (shr_1 mrs)) = Z.max 0 (Zdigits2 (shr_m mrs) - 1).
Proof.
  destruct mrs as [[|[m|m|]|[m|m|]] r s]; cbn [shr_1 shr_m Zdigits2 digits2_pos]; lia.
Qed.

Lemma Zdigits2_iter_shr_1 (p : positive) (mrs : shr_record) :
  Zdigits2 (shr_m (SpecFloat.iter_pos shr_1 p mrs)) =
  Z.max 0 (Zdigits2 (shr_m mrs) - Zpos p).
Proof.
  revert mrs. induction p as [p IH|p IH|]; intros mrs; simpl SpecFloat.iter_pos.
  - rewrite !IH, Zdigits2_shr_1. lia.
  - rewrite !IH. lia.
  - apply Zdigits2_shr_1.
Qed.

Lemma shr_1_nonneg (mrs : shr_record) :
  0 <= shr_m mrs -> 0 <= shr_m (shr_1 mrs).
Proof.
  destruct mrs as [[|[m|m|]|[m|m|]] r s]; simpl; lia.
Qed.

Lemma iter_shr_1_nonneg (p : positive) (mrs : shr_record) :
  0 <= shr_m mrs -> 0 <= shr_m (SpecFloat.iter_pos shr_1 p mrs).
Proof.
  revert mrs. induction p as [p IH|p IH|]; intros mrs H; simpl SpecFloat.iter_pos.
  - apply IH, IH, shr_1_nonneg, H.
  - apply IH, IH, H.
  - apply shr_1_nonneg, H.
Qed.

Lemma Zdigits2_nonneg (m : Z) : 0 <= Zdigits2 m.
Proof. destruct m; simpl; lia. Qed.

Lemma Zdigits2_pos (m : Z) : 0 < m -> 0 < Zdigits2 m.
Proof. destruct m; simpl; lia. Qed.

Lemma digits2_pos_size (p : positive) : digits2_pos p = Pos.size p.
Proof. induction p; simpl; congruence. Qed.

Lemma Zdigits2_bounds (m : Z) :
  0 < m -> 2 ^ (Zdigits2 m - 1) <= m < 2 ^ Zdigits2 m.
Proof.
  destruct m as [|p|p]; try lia. intros _. simpl Zdigits2.
  rewrite digits2_pos_size. split.
  - pose proof (Pos.size_le p) as H.
    assert (E : 2 ^ Z.pos (Pos.size p) = 2 * 2 ^ (Z.pos (Pos.size p) - 1)).
    { rewrite <- Z.pow_succ_r by lia. f_equal. lia. }
    assert (H' : 2 ^ Z.pos (Pos.size p) <= 2 * Z.pos p).
    { rewrite <- (Pos2Z.inj_pow 2 (Pos.size p)). lia. }
    lia.
  - pose proof (Pos.size_gt p) as H.
    rewrite <- (Pos2Z.inj_pow 2 (Pos.size p)). lia.
Qed.

Lemma Zdigits2_unique (m k : Z) :
  2 ^ (k - 1) <= m < 2 ^ k -> 0 < m -> Zdigits2 m = k.
Proof.
  intros [Hlo Hhi] Hm. pose proof (Zdigits2_bounds m Hm) as [Blo Bhi].
  pose proof (Zdigits2_pos m Hm) as Hd.
  assert (0 < k).
  { destruct (Z.leb_spec k 0) as [Hk|Hk]; [|lia].
    destruct (Z.eq_dec k 0) as [->|Hk0]; [simpl in Hhi; lia|].
    rewrite (Z.pow_neg_r 2 k) in Hhi by lia. lia. }
  destruct (Z.lt_trichotomy (Zdigits2 m) k) as [Hlt|[Heq|Hgt]]; [|exact Heq|].
  - assert (2 ^ Zdigits2 m <= 2 ^ (k - 1)) by (apply Z.pow_le_mono_r; lia). lia.
  - assert (2 ^ k <= 2 ^ (Zdigits2 m - 1)) by (apply Z.pow_le_mono_r; lia). lia.
Qed.

Lemma Zdigits2_le (m n : Z) : 0 <= m <= n -> Zdigits2 m <= Zdigits2 n.
Proof.
  intros [Hm Hmn]. destruct (Z.eq_dec m 0) as [->|Hm0].
  { apply Zdigits2_nonneg. }
  pose proof (Zdigits2_bounds m ltac:(lia)) as [Blo _].
  pose proof (Zdigits2_bounds n ltac:(lia)) as [_ Bhi].
  destruct (Z.le_gt_cases (Zdigits2 m) (Zdigits2 n)) as [|Hgt]; [assumption|].
  assert (2 ^ Zdigits2 n <= 2 ^ (Zdigits2 m - 1)) by (apply Z.pow_le_mono_r; lia).
  lia.
Qed.

Lemma Zdigits2_succ_le (m : Z) : 0 <= m -> Zdigits2 (m + 1) <= Zdigits2 m + 1.
Proof.
  intros Hm. destruct (Z.eq_dec m 0) as [->|Hm0]; [simpl; lia|].
  pose proof (Zdigits2_bounds m ltac:(lia)) as [_ Bhi].
  pose proof (Zdigits2_bounds (m + 1) ltac:(lia)) as [Blo _].
  pose proof (Zdigits2_pos m ltac:(lia)).
  destruct (Z.le_gt_cases (Zdigits2 (m + 1)) (Zdigits2 m + 1)) as [|Hgt]; [assumption|].
  assert (2 ^ (Zdigits2 m + 1) <= 2 ^ (Zdigits2 (m + 1) - 1))
    by (apply Z.pow_le_mono_r; lia).
  assert (2 ^ (Zdigits2 m + 1) = 2 * 2 ^ Zdigits2 m)
    by (replace (Zdigits2 m + 1) with (Z.succ (Zdigits2 m)) by lia;
        apply Z.pow_succ_r; lia).
  lia.
Qed.

Lemma div2_bounds (e : Z) : 2 * Z.div2 e <= e <= 2 * Z.div2 e + 1.
Proof. generalize (Z.div2_odd e). destruct (Z.odd e); cbn [Z.b2z]; lia. Qed.

Lemma pow2_lt_inv (a b : Z) : 0 <= b -> 2 ^ a < 2 ^ b -> a < b.
Proof. intros Hb H. apply (Z.pow_lt_mono_r_iff 2); [lia | exact Hb | exact H]. Qed.

Lemma pow2_square (k : Z) : 0 <= k -> 2 ^ k * 2 ^ k = 2 ^ (2 * k).
Proof. intros Hk. rewrite <- Z.pow_add_r by lia. f_equal. lia. Qed.

Lemma Zdigits2_shift (m : positive) (s : Z) :
  0 <= s -> Zdigits2 (Z.pos m * 2 ^ s) = Z.pos (digits2_pos m) + s.
Proof.
  intros Hs. pose proof (Zdigits2_bounds (Z.pos m) ltac:(lia)) as [Blo Bhi].
  cbn [Zdigits2] in Blo, Bhi. pose proof (Z.pow_pos_nonneg 2 s ltac:(lia) Hs) as Hp.
  apply Zdigits2_unique; [|apply Z.mul_pos_pos; lia].
  replace (Z.pos (digits2_pos m) + s - 1) with (Z.pos (digits2_pos m) - 1 + s) by lia.
  rewrite !Z.pow_add_r by lia. split.
  - apply Z.mul_le_mono_nonneg_r; lia.
  - apply Z.mul_lt_mono_pos_r; lia.
Qed.

(** *** Rounding, square root and division in one format *)

Section Format.
Variables prec emax : Z.
Hypothesis prec_pos : 0 < prec.
Hypothesis emax_ge : 3 <= emax.

Abbreviation emin := (emin prec emax).
Abbreviation fexp := (fexp prec emax).

Lemma shr_m_of_loc (m : Z) (l : location) : shr_m (shr_record_of_loc m l) = m.
Proof. destruct l as [|[]]; reflexivity. Qed.

Lemma shr_fexp_spec (m e : Z) (l : location) :
  0 <= m ->
  exists mrs e',
    shr_fexp prec emax m e l = (mrs, e') /\
    0 <= shr_m mrs /\
    e' = Z.max e (fexp (Zdigits2 m + e)) /\
    Zdigits2 (shr_m mrs) = Z.max 0 (Zdigits2 m + e - e') /\
    (e' = e -> mrs = shr_record_of_loc m l).
Proof.
  intros Hm. unfold shr_fexp, shr.
  pose proof (Zdigits2_nonneg m) as Hd.
  destruct (fexp (Zdigits2 m + e) - e) as [|p|p] eqn:Hn.
  - do 2 eexists. split; [reflexivity|]. rewrite shr_m_of_loc.
    repeat split; lia.
  - do 2 eexists. split; [reflexivity|].
    split; [apply iter_shr_1_nonneg; now rewrite shr_m_of_loc|].
    split; [lia|]. split.
    + rewrite Zdigits2_iter_shr_1, shr_m_of_loc. lia.
    + lia.
  - do 2 eexists. split; [reflexivity|]. rewrite shr_m_of_loc.
    repeat split; lia.
Qed.

Lemma round_nearest_even_bounds (m : Z) (l : location) :
  m <= round_nearest_even m l <= m + 1.
Proof.
  unfold round_nearest_even. destruct l as [|[]]; try lia.
  destruct (Z.even m); lia.
Qed.

(** What [binary_round_aux] can return on a non-negative mantissa. *)
Lemma binary_round_aux_spec (sx : bool) (mx ex : Z) (lx : location) :
  0 <= mx ->
  match binary_round_aux prec emax sx mx ex lx with
  | S754_zero s => s = sx /\ (mx = 0 \/ Zdigits2 mx + ex <= emin)
  | S754_finite s m e =>
      s = sx /\ Z.pos (digits2_pos m) <= prec /\ emin <= e /\
      e <= emax - prec /\
      Z.pos (digits2_pos m) + e <= 1 + Z.max (Zdigits2 mx + ex) emin /\
      (0 < mx -> emin < Zdigits2 mx + ex ->
       Zdigits2 mx + ex <= Z.pos (digits2_pos m) + e)
  | S754_infinity s =>
      s = sx /\ ~ (1 + Z.max (Zdigits2 mx + ex) emin <= emax /\ ex <= emax - prec)
  | S754_nan => False
  end.
Proof.
  intros Hm. unfold binary_round_aux.
  destruct (shr_fexp_spec mx ex lx Hm) as (mrs1 & e1 & -> & Hn1 & He1 & Hd1 & _).
  pose proof (round_nearest_even_bounds (shr_m mrs1) (loc_of_shr_record mrs1)) as Hr.
  set (m1 := round_nearest_even (shr_m mrs1) (loc_of_shr_record mrs1)) in *.
  assert (Hm1 : 0 <= m1) by lia.
  destruct (shr_fexp_spec m1 e1 loc_Exact Hm1) as (mrs2 & e2 & -> & Hn2 & He2 & Hd2 & _).
  pose proof (Zdigits2_le (shr_m mrs1) m1 ltac:(lia)) as Hle.
  pose proof (Zdigits2_le m1 (shr_m mrs1 + 1) ltac:(lia)) as Hle'.
  pose proof (Zdigits2_succ_le (shr_m mrs1) Hn1) as Hsucc.
  pose proof (Zdigits2_nonneg mx) as HD.
  unfold SpecFloat.fexp, SpecFloat.emin in *.
  destruct (shr_m mrs2) as [|m|m] eqn:Hm2; [| |lia].
  - split; [reflexivity|]. simpl Zdigits2 in Hd2.
    destruct (Z.eq_dec mx 0) as [|Hx]; [now left|right].
    pose proof (Zdigits2_pos mx ltac:(lia)). lia.
  - simpl Zdigits2 in Hd2.
    destruct (Z.leb_spec e2 (emax - prec)) as [Hle2|Hgt2].
    + split; [reflexivity|]. repeat split; try lia.
    + split; [reflexivity|]. lia.
Qed.

Lemma shl_align_spec (mx : positive) (ex ex' : Z) :
  exists mz ez,
    shl_align mx ex ex' = (mz, ez) /\ ez = Z.min ex ex' /\
    Z.pos (digits2_pos mz) + ez = Z.pos (digits2_pos mx) + ex.
Proof.
  unfold shl_align. destruct (ex' - ex) as [|d|d] eqn:Hd.
  - do 2 eexists. split; [reflexivity|]. lia.
  - do 2 eexists. split; [reflexivity|]. lia.
  - do 2 eexists. split; [reflexivity|]. rewrite digits2_pos_iter_xO. lia.
Qed.

(** What [binary_round] can return. *)
Lemma binary_round_spec (sx : bool) (mx : positive) (ex : Z) :
  match binary_round prec emax sx mx ex with
  | S754_zero s => s = sx /\ Z.pos (digits2_pos mx) + ex <= emin
  | S754_finite s m e =>
      s = sx /\ Z.pos (digits2_pos m) <= prec /\ emin <= e /\
      e <= emax - prec /\
      Z.pos (digits2_pos m) + e <= 1 + Z.max (Z.pos (digits2_pos mx) + ex) emin /\
      (emin < Z.pos (digits2_pos mx) + ex ->
       Z.pos (digits2_pos mx) + ex <= Z.pos (digits2_pos m) + e)
  | S754_infinity s =>
      s = sx /\ emax < 1 + Z.max (Z.pos (digits2_pos mx) + ex) emin
  | S754_nan => False
  end.
Proof.
  unfold binary_round.
  destruct (shl_align_spec mx ex (fexp (Z.pos (digits2_pos mx) + ex)))
    as (mz & ez & -> & Hez & Hmag).
  pose proof (binary_round_aux_spec sx (Z.pos mz) ez loc_Exact ltac:(lia)) as H.
  simpl Zdigits2 in H. rewrite Hmag in H.
  unfold SpecFloat.fexp, SpecFloat.emin in *.
  destruct (binary_round_aux prec emax sx (Z.pos mz) ez loc_Exact); try exact H.
  - destruct H as (-> & [H|H]); [lia|]. split; [reflexivity|lia].
  - destruct H as (-> & H). split; [reflexivity|]. lia.
  - destruct H as (-> & H1 & H2 & H3 & H4 & H5).
    split; [reflexivity|]. repeat split; lia.
Qed.

(** A number that fits the format is kept as it is. *)
Lemma binary_round_exact (sx : bool) (mx : positive) (ex : Z) :
  Z.pos (digits2_pos mx) <= prec -> emin <= ex ->
  Z.pos (digits2_pos mx) + ex <= emax ->
  exists m e,
    binary_round prec emax sx mx ex = S754_finite sx m e /\
    Z.pos (digits2_pos m) + e = Z.pos (digits2_pos mx) + ex /\
    Z.pos (digits2_pos m) <= prec /\ emin <= e.
Proof.
  intros Hd He HM. unfold binary_round.
  destruct (shl_align_spec mx ex (fexp (Z.pos (digits2_pos mx) + ex)))
    as (mz & ez & -> & Hez & Hmag).
  assert (Hfexp : fexp (Z.pos (digits2_pos mx) + ex) = ez).
  { unfold SpecFloat.fexp, SpecFloat.emin in *. lia. }
  unfold binary_round_aux.
  destruct (shr_fexp_spec (Z.pos mz) ez loc_Exact ltac:(lia))
    as (mrs1 & e1 & -> & _ & He1 & _ & Hsame).
  simpl Zdigits2 in He1. rewrite Hmag, Hfexp, Z.max_id in He1. subst e1.
  rewrite (Hsame eq_refl). cbn [shr_record_of_loc loc_of_shr_record shr_m round_nearest_even].
  destruct (shr_fexp_spec (Z.pos mz) ez loc_Exact ltac:(lia))
    as (mrs2 & e2 & -> & _ & He2 & _ & Hsame2).
  simpl Zdigits2 in He2. rewrite Hmag, Hfexp, Z.max_id in He2. subst e2.
  rewrite (Hsame2 eq_refl). cbn [shr_record_of_loc shr_m].
  assert (Hle : (ez <=? emax - prec) = true).
  { apply Z.leb_le. unfold SpecFloat.fexp, SpecFloat.emin in *. lia. }
  rewrite Hle. do 2 eexists. split; [reflexivity|].
  unfold SpecFloat.fexp, SpecFloat.emin in *. lia.
Qed.

Lemma shifted_mantissa (m : positive) (s : Z) :
  0 <= s ->
  match s with
  | Z.pos _ => Z.shiftl (Z.pos m) s
  | 0 => Z.pos m
  | Z.neg _ => 0
  end = Z.pos m * 2 ^ s.
Proof.
  intros Hs. destruct s as [|p|p]; [simpl; lia| |lia].
  apply Z.shiftl_mul_pow2. lia.
Qed.

Lemma SFsqrt_core_spec (m : positive) (e : Z) :
  exists q e' l,
    SFsqrt_core_binary prec emax (Z.pos m) e = (q, e', l) /\
    0 < q /\
    e' <= fexp (Z.div2 (Z.pos (digits2_pos m) + e + 1)) /\
    Z.pos (digits2_pos m) + e <= 2 * (Zdigits2 q + e') <= Z.pos (digits2_pos m) + e + 1.
Proof.
  unfold SFsqrt_core_binary. cbn [Zdigits2].
  set (e' := Z.min (fexp (Z.div2 (Z.pos (digits2_pos m) + e + 1))) (Z.div2 e)).
  assert (Hs : 0 <= e - 2 * e').
  { assert (H0 : e' <= Z.div2 e) by (unfold e'; apply Z.le_min_r).
    pose proof (div2_bounds e). lia. }
  rewrite (shifted_mantissa m (e - 2 * e') Hs).
  set (m' := Z.pos m * 2 ^ (e - 2 * e')).
  assert (Hm' : 0 < m').
  { pose proof (Z.pow_pos_nonneg 2 (e - 2 * e') ltac:(lia) Hs). unfold m'. nia. }
  pose proof (Z.sqrtrem_sqrt m') as Hq.
  destruct (Z.sqrtrem m') as [q r]. cbn [fst] in Hq. subst q.
  pose proof (Z.sqrt_spec m' ltac:(lia)) as [Hlo Hhi].
  pose proof (Z.sqrt_nonneg m') as Hq0.
  set (q := Z.sqrt m') in *.
  assert (Hq : 0 < q) by nia.
  do 3 eexists. split; [reflexivity|]. split; [exact Hq|].
  split; [unfold e'; lia|].
  pose proof (Zdigits2_shift m (e - 2 * e') Hs) as Hd. fold m' in Hd.
  pose proof (Zdigits2_bounds m' Hm') as [Mlo Mhi]. rewrite Hd in Mlo, Mhi.
  pose proof (Zdigits2_bounds q Hq) as [Qlo Qhi].
  pose proof (Zdigits2_pos q Hq) as HDq.
  pose proof (pow2_square (Zdigits2 q) ltac:(lia)) as Sq1.
  pose proof (pow2_square (Zdigits2 q - 1) ltac:(lia)) as Sq2.
  assert (H1 : 2 ^ (Z.pos (digits2_pos m) + (e - 2 * e') - 1) < 2 ^ (2 * Zdigits2 q)) by nia.
  apply pow2_lt_inv in H1; [|lia].
  assert (H2 : 2 ^ (2 * (Zdigits2 q - 1)) < 2 ^ (Z.pos (digits2_pos m) + (e - 2 * e'))) by nia.
  apply pow2_lt_inv in H2; [|lia].
  lia.
Qed.

(** The square root of a positive number of the format is a positive
    number of the format, of at least half the magnitude. *)
Lemma SFsqrt_spec (mx : positive) (ex : Z) :
  Z.pos (digits2_pos mx) + ex <= emax ->
  emin < Z.pos (digits2_pos mx) + ex ->
  exists m e,
    SFsqrt prec emax (S754_finite false mx ex) = S754_finite false m e /\
    Z.pos (digits2_pos m) <= prec /\ emin <= e /\
    Z.pos (digits2_pos mx) + ex <= 2 * (Z.pos (digits2_pos m) + e).
Proof.
  intros HM Hm. cbn [SFsqrt].
  destruct (SFsqrt_core_spec mx ex) as (q & e' & l & -> & Hq & He' & Hlo & Hhi).
  pose proof (binary_round_aux_spec false q e' l ltac:(lia)) as H.
  unfold SpecFloat.fexp, SpecFloat.emin in *.
  pose proof (div2_bounds (Z.pos (digits2_pos mx) + ex + 1)) as Hhalf.
  destruct (binary_round_aux prec emax false q e' l) as [s|s| |s m e].
  - destruct H as (_ & [H|H]); lia.
  - destruct H as (_ & H). exfalso. apply H. lia.
  - contradiction.
  - destruct H as (-> & H1 & H2 & H3 & H4 & H5).
    do 2 eexists. split; [reflexivity|]. repeat split; try lia.
Qed.

Lemma SFdiv_core_spec (m1 : positive) (e1 : Z) (m2 : positive) (e2 : Z) :
  exists q e' l,
    SFdiv_core_binary prec emax (Z.pos m1) e1 (Z.pos m2) e2 = (q, e', l) /\
    0 <= q /\
    e' <= fexp (Z.pos (digits2_pos m1) + e1 - (Z.pos (digits2_pos m2) + e2)) /\
    (0 < q ->
     Zdigits2 q + e' <=
     Z.pos (digits2_pos m1) + e1 - (Z.pos (digits2_pos m2) + e2) + 1).
Proof.
  unfold SFdiv_core_binary. cbn [Zdigits2].
  set (e' := Z.min (fexp (Z.pos (digits2_pos m1) + e1 - (Z.pos (digits2_pos m2) + e2)))
               (e1 - e2)).
  assert (Hs : 0 <= e1 - e2 - e') by (unfold e'; lia).
  rewrite (shifted_mantissa m1 (e1 - e2 - e') Hs).
  set (m' := Z.pos m1 * 2 ^ (e1 - e2 - e')).
  assert (Hm' : 0 < m').
  { pose proof (Z.pow_pos_nonneg 2 (e1 - e2 - e') ltac:(lia) Hs). unfold m'. nia. }
  pose proof (Z_div_mod m' (Z.pos m2) ltac:(lia)) as Hdiv.
  destruct (Z.div_eucl m' (Z.pos m2)) as [q r]. destruct Hdiv as [Heq Hr].
  assert (Hq : 0 <= q) by nia.
  do 3 eexists. split; [reflexivity|]. split; [exact Hq|].
  split; [unfold e'; lia|]. intros Hq'.
  pose proof (Zdigits2_shift m1 (e1 - e2 - e') Hs) as Hd. fold m' in Hd.
  pose proof (Zdigits2_bounds m' Hm') as [_ Mhi]. rewrite Hd in Mhi.
  pose proof (Zdigits2_bounds q Hq') as [Qlo _].
  pose proof (Zdigits2_pos q Hq') as HDq.
  pose proof (Zdigits2_bounds (Z.pos m2) ltac:(lia)) as [Ylo _].
  cbn [Zdigits2] in Ylo.
  assert (Hprod : 2 ^ (Zdigits2 q - 1 + (Z.pos (digits2_pos m2) - 1)) <= q * Z.pos m2).
  { rewrite Z.pow_add_r by lia.
    apply Z.mul_le_mono_nonneg; try lia; apply Z.pow_nonneg; lia. }
  assert (H1 : 2 ^ (Zdigits2 q - 1 + (Z.pos (digits2_pos m2) - 1))
               < 2 ^ (Z.pos (digits2_pos m1) + (e1 - e2 - e'))) by nia.
  apply pow2_lt_inv in H1; lia.
Qed.

(** A quotient of two numbers of the format is zero or a number of the
    format when the magnitudes leave room for it. *)
Lemma SFdiv_spec (sx : bool) (mx : positive) (ex : Z)
    (sy : bool) (my : positive) (ey : Z) :
  Z.pos (digits2_pos mx) + ex - (Z.pos (digits2_pos my) + ey) + 2 <= emax ->
  match SFdiv prec emax (S754_finite sx mx ex) (S754_finite sy my ey) with
  | S754_zero _ => True
  | S754_finite _ m e =>
      Z.pos (digits2_pos m) <= prec /\ emin <= e /\
      Z.pos (digits2_pos m) + e <=
      1 + Z.max (Z.pos (digits2_pos mx) + ex - (Z.pos (digits2_pos my) + ey) + 1) emin
  | _ => False
  end.
Proof.
  intros HM. cbn [SFdiv].
  destruct (SFdiv_core_spec mx ex my ey) as (q & e' & l & -> & Hq & He' & Hmag).
  pose proof (binary_round_aux_spec (xorb sx sy) q e' l Hq) as H.
  pose proof (Zdigits2_nonneg q) as HDq.
  assert (Hq0 : q = 0 -> Zdigits2 q = 0) by (intros ->; reflexivity).
  unfold SpecFloat.fexp, SpecFloat.emin in *.
  destruct (binary_round_aux prec emax (xorb sx sy) q e' l) as [s|s| |s m e].
  - exact I.
  - destruct H as (_ & H). apply H.
    destruct (Z.eq_dec q 0) as [E|E]; [specialize (Hq0 E) | specialize (Hmag ltac:(lia))]; lia.
  - exact H.
  - destruct H as (_ & H1 & H2 & H3 & H4 & _).
    destruct (Z.eq_dec q 0) as [E|E]; [specialize (Hq0 E) | specialize (Hmag ltac:(lia))]; lia.
Qed.
End Format.

(** *** The dtypes as formats *)

Lemma dtype_prec_pos (d : dtype) : 0 < prec d.
Proof. destruct d; reflexivity. Qed.

Lemma dtype_emax_ge (d : dtype) : 3 <= emax d.
Proof. destruct d; discriminate. Qed.

Lemma wider_opmath (c : dtype) : wider c (opmath c).
Proof. destruct c; repeat split; discriminate. Qed.

Lemma wider_promote_r (a b : dtype) : wider b (opmath (promote_types a b)).
Proof. destruct a, b; repeat split; discriminate. Qed.

Lemma round_to_in_format (d : dtype) (v : spec_float) :
  in_format d (round_to d v).
Proof.
  destruct v as [s|s| |s m e]; try exact I. cbn [round_to].
  pose proof (binary_round_spec (prec d) (emax d) (dtype_prec_pos d) (dtype_emax_ge d) s m e) as H.
  destruct (binary_round (prec d) (emax d) s m e); try exact I.
  cbn [in_format]. lia.
Qed.

Lemma round_to_widen (c o : dtype) (s : bool) (m : positive) (e : Z) :
  wider c o -> in_format c (S754_finite s m e) ->
  exists m' e',
    round_to o (S754_finite s m e) = S754_finite s m' e' /\
    Z.pos (digits2_pos m') + e' = Z.pos (digits2_pos m) + e /\
    in_format o (S754_finite s m' e').
Proof.
  intros (Hp & He & Hm) (H1 & H2 & H3). cbn [round_to].
  destruct (binary_round_exact (prec o) (emax o) (dtype_emax_ge o) s m e)
    as (m' & e' & -> & Hmag & Hd & Hmin); try lia.
  do 2 eexists. split; [reflexivity|]. split; [exact Hmag|].
  cbn [in_format]. lia.
Qed.

(** *** Zeros and finite factors *)

Lemma round_to_zero (d : dtype) (v : spec_float) :
  is_zero v = true -> round_to d v = v.
Proof. destruct v; try discriminate. reflexivity. Qed.

Lemma fmul_square_zero (d : dtype) (v : spec_float) :
  is_zero v = true -> fmul d v v = S754_zero false.
Proof. destruct v as [[]| | |]; try discriminate; reflexivity. Qed.

Lemma SFsum_zeros (p e : Z) (l : list spec_float) :
  Forall (fun v => v = S754_zero false) l -> SFsum p e l = S754_zero false.
Proof.
  unfold SFsum. induction 1 as [|v l -> _ IH]; [reflexivity|exact IH].
Qed.

Lemma emin_neg (d : dtype) : emin (prec d) (emax d) < 0.
Proof. destruct d; reflexivity. Qed.

Lemma of_Z_positive (d : dtype) (n : Z) :
  0 < n -> is_positive (of_Z d n) = true.
Proof.
  destruct n as [|p|p]; try lia. intros _. unfold of_Z. cbn [binary_normalize].
  pose proof (binary_round_spec (prec d) (emax d) (dtype_prec_pos d) (dtype_emax_ge d) false p 0) as H.
  pose proof (emin_neg d).
  destruct (binary_round (prec d) (emax d) false p 0) as [s|s| |s m e].
  - lia.
  - now destruct H as [-> _].
  - contradiction.
  - now destruct H as [-> _].
Qed.

Lemma fmean_zeros (d : dtype) (l : list spec_float) :
  l <> [] -> Forall (fun v => v = S754_zero false) l ->
  fmean d l = S754_zero false.
Proof.
  intros Hne Hz. unfold fmean.
  assert (Hmap : Forall (fun v => v = S754_zero false) (map (round_to (opmath d)) l)).
  { clear Hne. induction Hz as [|v l -> _ IH]; simpl;
      [constructor | constructor; [reflexivity | exact IH]]. }
  rewrite (SFsum_zeros _ _ _ Hmap).
  assert (Hlen : 0 < Z.of_nat (length l)) by (destruct l; [contradiction | simpl; lia]).
  pose proof (of_Z_positive (opmath d) _ Hlen) as Hpos.
  destruct (of_Z (opmath d) (Z.of_nat (length l))) as [s|[]| |[] m e];
    try discriminate; reflexivity.
Qed.

Lemma fmul_zero_finite (c d : dtype) (u v : spec_float) :
  wider c (opmath d) -> in_format c v ->
  is_zero u = true -> is_finite v = true ->
  is_zero (fmul d u v) = true.
Proof.
  intros Hw Hin Hu Hv. unfold fmul, binop.
  destruct u as [su| | |]; try discriminate. cbn [round_to].
  destruct v as [sv|sv| |sv m e]; try discriminate; [reflexivity|].
  destruct (round_to_widen c (opmath d) sv m e Hw Hin) as (m' & e' & -> & _).
  reflexivity.
Qed.

(** The reciprocal square root of a positive number of dtype [c] is a
    finite number of dtype [c]: neither the square root nor the division
    leaves the range of the type they are computed in. *)
Lemma frsqrt_finite (c : dtype) (v : spec_float) :
  in_format c v -> is_positive v = true ->
  is_finite (frsqrt c v) = true /\ in_format c (frsqrt c v).
Proof.
  intros Hin Hpos. split; [|apply round_to_in_format].
  unfold frsqrt, unop, SFrsqrt. set (o := opmath c).
  destruct (binary_round_exact (prec o) (emax o) (dtype_emax_ge o) false 1 0)
    as (mo & eo & Eo & Hmago & _).
  { pose proof (dtype_prec_pos o). simpl. lia. }
  { pose proof (emin_neg o). lia. }
  { pose proof (dtype_emax_ge o). simpl. lia. }
  unfold SFone. rewrite Eo.
  destruct v as [s|[]| |[] m e]; try discriminate.
  { reflexivity. }
  destruct (round_to_widen c o false m e (wider_opmath c) Hin)
    as (m0 & e0 & -> & Hmag0 & Hin0).
  destruct Hin as (H1 & H2 & H3). destruct Hin0 as (H4 & H5 & H6).
  pose proof (wider_opmath c) as (W1 & W2 & W3). fold o in W1, W2, W3.
  destruct (SFsqrt_spec (prec o) (emax o) (dtype_prec_pos o) (dtype_emax_ge o) m0 e0)
    as (m1 & e1 & -> & Hd1 & Hmin1 & Hhalf); try lia.
  pose proof (SFdiv_spec (prec o) (emax o) (dtype_prec_pos o) (dtype_emax_ge o)
                false mo eo false m1 e1) as Hdiv.
  simpl digits2_pos in Hmago.
  assert (Hroom : Z.pos (digits2_pos mo) + eo - (Z.pos (digits2_pos m1) + e1) + 2
                  <= emax o).
  { subst o. destruct c; unfold emin in *; cbn [prec emax opmath] in *; lia. }
  specialize (Hdiv Hroom).
  destruct (SFdiv (prec o) (emax o) (S754_finite false mo eo) (S754_finite false m1 e1))
    as [s2|s2| |s2 m2 e2]; try contradiction; [reflexivity|].
  cbn [round_to].
  pose proof (binary_round_spec (prec c) (emax c) (dtype_prec_pos c) (dtype_emax_ge c) s2 m2 e2) as Hr.
  destruct (binary_round (prec c) (emax c) s2 m2 e2) as [s3|s3| |s3 m3 e3];
    try reflexivity; [|contradiction].
  exfalso. destruct Hr as (_ & Hr). destruct Hdiv as (_ & _ & Hdiv).
  subst o. destruct c; unfold emin in *; cbn [prec emax opmath] in *; lia.
Qed.

Lemma compute_conv_zero (a : autocast_state) (x : Tensor) (v : spec_float) :
  is_zero v = true -> compute_conv a x v = v.
Proof.
  intros H. unfold compute_conv.
  destruct (autocast_applies a x); [now apply round_to_zero | reflexivity].
Qed.

Lemma rms_slice_zeros (c d : dtype) (conv : spec_float -> spec_float)
    (eps : spec_float) (slice : list spec_float) :
  wider c (opmath d) ->
  (forall v, is_zero v = true -> conv v = v) ->
  is_positive (rounded_eps c eps) = true ->
  Forall (fun v => is_zero v = true) slice ->
  Forall (fun v => is_zero v = true) (rms_slice c d conv eps slice).
Proof.
  intros Hw Hconv Hpos Hz. unfold rms_slice.
  destruct slice as [|v0 slice0] eqn:Hs; [constructor|]. rewrite <- Hs in *.
  assert (Hne : slice <> []) by (rewrite Hs; discriminate). clear Hs.
  assert (Hfac : rms_factor c conv eps slice = frsqrt c (rounded_eps c eps)).
  { unfold rms_factor, rounded_eps. rewrite fmean_zeros; [reflexivity| |].
    - destruct slice; [contradiction | discriminate].
    - clear Hne. induction Hz as [|v l Hv _ IH]; simpl; constructor; [|exact IH].
      rewrite (Hconv v Hv). now apply fmul_square_zero. }
  rewrite Hfac.
  destruct (frsqrt_finite c (rounded_eps c eps)) as [Hfin Hin];
    [apply round_to_in_format | exact Hpos |].
  clear Hne Hfac. induction Hz as [|v l Hv _ IH]; simpl; constructor; [|exact IH].
  now apply (fmul_zero_finite c d).
Qed.

Lemma scaled_zeros (dw d : dtype) (slice ws : list spec_float) :
  wider dw (opmath d) ->
  Forall (fun v => is_zero v = true) slice ->
  Forall (fun v => is_finite v = true /\ in_format dw v) ws ->
  Forall (fun v => is_zero v = true) (zip_with (fmul d) slice ws).
Proof.
  intros Hw Hz. revert ws. induction Hz as [|u l Hu _ IH]; intros ws Hws;
    [constructor|].
  destruct Hws as [|w ws [Hfin Hin] Hws]; simpl; constructor.
  - now apply (fmul_zero_finite dw d).
  - now apply IH.
Qed.

(** ** Lemmas on nests of slices and broadcasting *)

Lemma nested_induction {R} (P : nested R -> Prop) :
  (forall r, P (Slice r)) ->
  (forall a l, P a -> Forall P l -> P (Stack a l)) ->
  forall v, P v.
Proof.
  intros HS HN. fix IH 1. intros [r|a l]; [apply HS|].
  apply HN; [apply IH|].
  induction l as [|b l IHl]; constructor; [apply IH | exact IHl].
Qed.

Lemma map_ext_Forall2 {A B} (f g : A -> B) (l : list A) :
  Forall (fun a => f a = g a) l -> map f l = map g l.
Proof. induction 1 as [|a l Ha _ IH]; simpl; [reflexivity | now rewrite Ha, IH]. Qed.

Lemma rows_nmap {R S} (f : R -> S) (v : nested R) :
  rows (nmap f v) = map f (rows v).
Proof.
  induction v as [r|a l IHa IHl] using nested_induction; [reflexivity|].
  cbn [nmap rows]. rewrite map_app, concat_map, IHa, !List.map_map. do 2 f_equal.
  now apply map_ext_Forall2.
Qed.

Lemma nmap_nmap {R S T} (f : R -> S) (g : S -> T) (v : nested R) :
  nmap g (nmap f v) = nmap (fun r => g (f r)) v.
Proof.
  induction v as [r|a l IHa IHl] using nested_induction; [reflexivity|].
  cbn [nmap]. rewrite IHa, List.map_map. f_equal. now apply map_ext_Forall2.
Qed.

Lemma nmap_ext_rows {R S} (f g : R -> S) (v : nested R) :
  Forall (fun r => f r = g r) (rows v) -> nmap f v = nmap g v.
Proof.
  induction v as [r|a l IHa IHl] using nested_induction; cbn [nmap rows]; intros H.
  - apply Forall_inv in H. now rewrite H.
  - apply Forall_app in H as [Ha Hl]. rewrite (IHa Ha). f_equal.
    apply Forall_concat in Hl. apply map_ext_Forall2.
    induction IHl as [|b l Hb _ IH]; [constructor|].
    cbn [map] in Hl. inversion Hl; subst. constructor; auto.
Qed.

Lemma nmap_ext {R S} (f g : R -> S) (v : nested R) :
  (forall r, f r = g r) -> nmap f v = nmap g v.
Proof.
  intros H. apply nmap_ext_rows. induction (rows v); constructor; auto.
Qed.

Lemma nmap_id {R} (v : nested R) : nmap (fun r => r) v = v.
Proof.
  induction v as [r|a l IHa IHl] using nested_induction; [reflexivity|].
  cbn [nmap]. rewrite IHa. f_equal.
  induction IHl as [|b l Hb _ IH]; [reflexivity|]. cbn [map]. now rewrite Hb, IH.
Qed.

Lemma depth_nmap {R S} (f : R -> S) (v : nested R) : depth (nmap f v) = depth v.
Proof.
  induction v as [r|a l IHa _] using nested_induction; [reflexivity|].
  cbn [nmap depth]. now rewrite IHa.
Qed.

Lemma collect_map {A B} (f : A -> option B) (g : A -> B) (l : list A) :
  Forall (fun a => f a = Some (g a)) l -> collect (map f l) = Some (map g l).
Proof.
  unfold collect. induction 1 as [|a l Ha _ IH]; [reflexivity|].
  cbn [map foldr]. now rewrite Ha, IH.
Qed.

Lemma zip_with_map_diag {A B C} (f : A -> B -> C) (g : A -> B) (l : list A) :
  zip_with f l (map g l) = map (fun x => f x (g x)) l.
Proof.
  induction l as [|x l IH]; simpl; [reflexivity|]. now rewrite IH.
Qed.

Lemma zip_with_replicate_map {A B C} (f : A -> B -> C) (l : list A) (y : B) (k : nat) :
  (length l <= k)%nat -> zip_with f l (replicate k y) = map (fun x => f x y) l.
Proof.
  revert k. induction l as [|x l IH]; intros k Hk; [reflexivity|].
  destruct k as [|k]; simpl in *; [lia|].
  f_equal. apply IH. lia.
Qed.

Lemma pointwise_one_r (f : spec_float -> spec_float -> spec_float)
    (r : list spec_float) (y : spec_float) :
  pointwise f r [y] = Some (map (fun x => f x y) r).
Proof.
  unfold pointwise. destruct (decide (length r = length [y])) as [E|_].
  - destruct r as [|x [|x' r]]; try discriminate. reflexivity.
  - now destruct r as [|x [|x' r]].
Qed.

Lemma pointwise_same_length (f : spec_float -> spec_float -> spec_float)
    (r s : list spec_float) :
  length r = length s -> pointwise f r s = Some (zip_with f r s).
Proof. intros E. unfold pointwise. now destruct (decide (length r = length s)). Qed.

(** An operand with the shape of the other, slice by slice. *)
Lemma broadcast_diag {R} (op : R -> R -> option R) (g h : R -> R) (v : nested R) :
  Forall (fun r => op r (g r) = Some (h r)) (rows v) ->
  broadcast op v (nmap g v) = Some (nmap h v).
Proof.
  induction v as [r|a l IHa IHl] using nested_induction; cbn [nmap rows]; intros H.
  - apply Forall_inv in H. cbn. now rewrite H.
  - apply Forall_app in H as [Ha Hl]. apply Forall_concat in Hl.
    cbn [broadcast]. rewrite depth_nmap, Nat.compare_refl.
    destruct (decide (length l = length (map (nmap g) l))) as [_|Hne];
      [|now rewrite length_map in Hne].
    rewrite (IHa Ha), zip_with_map_diag. unfold stack.
    rewrite (collect_map _ (nmap h)); [reflexivity|].
    clear -IHl Hl. induction IHl as [|b l Hb _ IH]; [constructor|].
    cbn [map] in Hl. inversion Hl; subst. constructor; auto.
Qed.

(** A one-dimensional operand is paired with every slice of the other. *)
Lemma broadcast_slice_r {R} (op : R -> R -> option R) (h : R -> R)
    (v : nested R) (s : R) :
  Forall (fun r => op r s = Some (h r)) (rows v) ->
  broadcast op v (Slice s) = Some (nmap h v).
Proof.
  induction v as [r|a l IHa IHl] using nested_induction; cbn [nmap rows]; intros H.
  - apply Forall_inv in H. cbn. now rewrite H.
  - apply Forall_app in H as [Ha Hl]. apply Forall_concat in Hl.
    cbn [broadcast]. rewrite (IHa Ha). unfold stack.
    rewrite (collect_map _ (nmap h)); [reflexivity|].
    clear -IHl Hl. induction IHl as [|b l Hb _ IH]; [constructor|].
    cbn [map] in Hl. inversion Hl; subst. constructor; auto.
Qed.

Lemma lookup_rows_nmap {R S} (f : R -> S) (v : nested R) (i : nat) (r : R) :
  rows v !! i = Some r -> rows (nmap f v) !! i = Some (f r).
Proof. intros H. now rewrite rows_nmap, list_lookup_fmap, H. Qed.

Lemma lengths_rows_nmap (f : list spec_float -> list spec_float)
    (v : nested (list spec_float)) :
  (forall r, length (f r) = length r) ->
  map length (rows (nmap f v)) = map length (rows v).
Proof.
  intros Hf. rewrite rows_nmap, List.map_map. apply map_ext. exact Hf.
Qed.

Lemma Forall_lengths {A} (P : nat -> Prop) (l k : list (list A)) :
  map length l = map length k ->
  Forall (fun r => P (length r)) l -> Forall (fun r => P (length r)) k.
Proof.
  revert k. induction l as [|r l IH]; intros [|s k] E H; try discriminate;
    [constructor|].
  injection E as E1 E2. inversion H; subst. constructor; [congruence | auto].
Qed.

(** ** Lemmas on the process state *)

Lemma stateless_ret {G A} (a : A) : stateless (@ret G A a).
Proof. intros p. reflexivity. Qed.

Lemma stateless_raise {G A} (e : exception) : stateless (@raise G A e).
Proof. intros p. reflexivity. Qed.

Lemma stateless_bind {G A B} (m : M G A) (k : A -> M G B) :
  stateless m -> (forall a, stateless (k a)) -> stateless (bind m k).
Proof.
  intros Hm Hk p. unfold bind. specialize (Hm p).
  destruct (m p) as [[a|e] p']; simpl in *; subst p'; [apply Hk | reflexivity].
Qed.

Lemma stateless_autocast {G A} (device_type : string) (b : bool) (body : M G A) :
  stateless body -> stateless (autocast device_type b body).
Proof.
  intros Hb p. unfold autocast.
  destruct (autocast_available (amp p) device_type); [|reflexivity].
  destruct (device_type =? "cuda")%string; [|apply Hb]. simpl.
  match goal with |- context [body ?q] => specialize (Hb q); destruct (body q) as [r p2] end.
  simpl in *. subst p2. destruct p as [[e g c bs] gl]. reflexivity.
Qed.

Lemma stateless_mul {G} (a b : Tensor) : stateless (@mul G a b).
Proof. intros p. unfold mul. destruct (product a b); reflexivity. Qed.

Lemma stateless_autocast_float32 {G} (t : Tensor) : stateless (@autocast_float32 G t).
Proof. intros p. reflexivity. Qed.

Create HintDb py.

#[local] Hint Resolve stateless_ret stateless_raise stateless_bind
  stateless_autocast stateless_mul stateless_autocast_float32 : py.

Lemma stateless_layer_norm {G} (input : Tensor) (n : nat)
    (weight bias : option Tensor) (eps : spec_float) :
  stateless (@layer_norm G input n weight bias eps).
Proof.
  unfold layer_norm.
  apply stateless_bind; [auto with py | intros input'].
  apply stateless_bind; [destruct weight; simpl; auto with py | intros weight'].
  apply stateless_bind; [destruct bias; simpl; auto with py | intros bias'].
  cbv zeta. destruct (_ && _ && _); auto with py.
Qed.

Lemma stateless_cast (tensor : Tensor) :
  stateless (_cast_if_autocast_enabled tensor).
Proof.
  intros p. unfold _cast_if_autocast_enabled. py_unfold.
  unfold bind, is_autocast_enabled. simpl.
  destruct (autocast_enabled (amp p)); [|reflexivity].
  destruct (device tensor =? "cuda")%string; [reflexivity|].
  destruct (device tensor =? "cpu")%string; reflexivity.
Qed.

Lemma stateless_cast_parameter (t : option Tensor) :
  stateless (cast_parameter t).
Proof.
  destruct t as [t|]; simpl; py_unfold; [|apply stateless_ret].
  apply stateless_bind; [apply stateless_cast | intros; apply stateless_ret].
Qed.

Lemma stateless_rms_norm (x : Tensor) (weight : option Tensor) (eps : spec_float) :
  stateless (rms_norm x weight eps).
Proof.
  unfold rms_norm, pow, rsqrt. py_unfold.
  repeat (apply stateless_bind; [auto with py | intros ?]).
  destruct weight; auto with py.
Qed.

#[local] Hint Resolve stateless_cast stateless_cast_parameter
  stateless_rms_norm stateless_layer_norm : py.

Lemma stateless_forward (m : norm_module) (x : Tensor) :
  stateless (forward m x).
Proof.
  destruct m as [self|self|self|self]; simpl;
    unfold LayerNorm.forward, LPLayerNorm.forward, RMSNorm.forward,
      LPRMSNorm.forward; py_unfold;
    repeat first
      [ solve [auto with py]
      | apply stateless_autocast
      | apply stateless_bind; [|intros ?] ].
Qed.

Lemma stateless_run_operation (o : operation) : stateless (run_operation o).
Proof.
  destruct o; simpl; unfold discard; py_unfold;
    (apply stateless_bind; [|intros; apply stateless_ret]);
    auto using stateless_forward with py.
Qed.

Lemma run_operations_id (os : list operation) p : run_operations os p = p.
Proof.
  unfold run_operations. induction os as [|o os IH]; simpl; [reflexivity|].
  now rewrite stateless_run_operation.
Qed.

Lemma autocast_run {G A} (device_type : string) (b : bool) (body : M G A)
    (p : process G) :
  stateless body ->
  autocast device_type b body p =
  (if autocast_available (amp p) device_type
   then fst (body (inside_autocast device_type b p))
   else Raise RuntimeError, p).
Proof.
  intros Hb. unfold autocast, inside_autocast.
  destruct (autocast_available (amp p) device_type); [|reflexivity].
  destruct (device_type =? "cuda")%string.
  - simpl.
    match goal with |- context [body ?q] => specialize (Hb q); destruct (body q) as [r p2] end.
    simpl in *. subst p2. destruct p as [[e g c bs] gl]. reflexivity.
  - specialize (Hb p). destruct (body p) as [r p2]. simpl in *. now subst p2.
Qed.

Lemma inside_autocast_disabled {G} (device_type : string) (p : process G) :
  autocast_enabled (amp p) = false -> inside_autocast device_type false p = p.
Proof.
  unfold inside_autocast. destruct (device_type =? "cuda")%string; [|reflexivity].
  destruct p as [[e g c bs] gl]. simpl. intros ->. reflexivity.
Qed.

Lemma known_device_available (a : autocast_state) (dev : string) :
  known_device dev = true -> autocast_available a dev = true.
Proof. unfold known_device, autocast_available. now intros ->. Qed.

Lemma to_dtype (d : dtype) (t : Tensor) : t_dtype (to d t) = d.
Proof. unfold to. destruct (decide (t_dtype t = d)); [assumption | reflexivity]. Qed.

Lemma to_same (t : Tensor) : to (t_dtype t) t = t.
Proof. unfold to. destruct (decide (t_dtype t = t_dtype t)); [reflexivity | contradiction]. Qed.

Lemma promote_types_idem (d : dtype) : promote_types d d = d.
Proof. destruct d; reflexivity. Qed.

Lemma cast_run (tensor : Tensor) (p : process (gmap string norm_class)) :
  _cast_if_autocast_enabled tensor p =
  (if autocast_enabled (amp p) then
     if known_device (device tensor)
     then Ok (to (autocast_dtype (amp p) (device tensor)) tensor)
     else Raise NotImplementedError
   else Ok tensor, p).
Proof.
  unfold _cast_if_autocast_enabled, known_device, autocast_dtype. py_unfold.
  unfold bind, is_autocast_enabled. simpl.
  destruct (autocast_enabled (amp p)); [|reflexivity].
  destruct (device tensor =? "cuda")%string; [reflexivity|].
  destruct (device tensor =? "cpu")%string; reflexivity.
Qed.

Lemma cast_parameter_run (t : option Tensor) (p : process (gmap string norm_class)) :
  cast_parameter t p =
  (match t with
   | Some t =>
       match fst (_cast_if_autocast_enabled t p) with
       | Ok t' => Ok (Some t')
       | Raise e => Raise e
       end
   | None => Ok None
   end, p).
Proof.
  destruct t as [t|]; [|reflexivity].
  unfold cast_parameter. py_unfold. unfold bind.
  rewrite cast_run. simpl.
  destruct (autocast_enabled (amp p)); [|reflexivity].
  destruct (known_device (device t)); reflexivity.
Qed.

(** ** Properties of the precision cast *)

(** C4: the precision cast raises the unsupported-device error exactly
    when autocast is enabled and the device type of the tensor is neither
    "cuda" nor "cpu"; with autocast disabled it raises on no device. *)
Theorem cast_raises_iff (p : process (gmap string norm_class)) (tensor : Tensor) :
  (fst (_cast_if_autocast_enabled tensor p) = Raise NotImplementedError <->
   autocast_enabled (amp p) = true /\
   device tensor <> "cuda"%string /\ device tensor <> "cpu"%string) /\
  (autocast_enabled (amp p) = false ->
   forall e, fst (_cast_if_autocast_enabled tensor p) <> Raise e).
Proof.
  rewrite cast_run. unfold known_device. simpl.
  destruct (autocast_enabled (amp p)).
  - split; [|discriminate].
    destruct (String.eqb_spec (device tensor) "cuda") as [Hc|Hc];
      destruct (String.eqb_spec (device tensor) "cpu") as [Hp|Hp]; simpl;
      split; try discriminate; try tauto; intros (_ & H1 & H2); tauto.
  - split; [|intros _ e; discriminate].
    split; [discriminate | intros (H & _); discriminate].
Qed.

Lemma cast_raises_iff_witness :
  fst (_cast_if_autocast_enabled x_mps p_on) = Raise NotImplementedError.
Proof.
  apply (proj2 (proj1 (cast_raises_iff p_on x_mps))).
  repeat split; discriminate.
Defined.

(** C5: with autocast disabled the precision cast is the identity: it
    returns the tensor it was given and leaves the process as it was. *)
Theorem cast_identity_when_disabled
    (p : process (gmap string norm_class)) (tensor : Tensor) :
  autocast_enabled (amp p) = false ->
  _cast_if_autocast_enabled tensor p = (Ok tensor, p).
Proof. intros H. rewrite cast_run, H. reflexivity. Qed.

(** C6: with autocast enabled, a tensor on a cuda device is returned in
    the configured GPU autocast dtype and a tensor on a cpu device in the
    configured CPU autocast dtype. *)
Theorem cast_output_dtype (p : process (gmap string norm_class)) (tensor : Tensor) :
  autocast_enabled (amp p) = true ->
  (device tensor = "cuda"%string ->
   exists out, fst (_cast_if_autocast_enabled tensor p) = Ok out /\
               t_dtype out = autocast_gpu_dtype (amp p)) /\
  (device tensor = "cpu"%string ->
   exists out, fst (_cast_if_autocast_enabled tensor p) = Ok out /\
               t_dtype out = autocast_cpu_dtype (amp p)).
Proof.
  intros H. rewrite cast_run, H. unfold known_device, autocast_dtype.
  split; intros ->; simpl; eexists; (split; [reflexivity | apply to_dtype]).
Qed.

(** ** rms_norm computes the formula *)

Lemma autocast_float32_run {G} (t : Tensor) (p : process G) :
  autocast_float32 t p =
  (Ok (if autocast_applies (amp p) t
       then mkTensor float32 (device t) (nmap (map (round_to float32)) (value t))
       else t), p).
Proof.
  unfold autocast_float32, bind, is_autocast_enabled, ret, autocast_applies.
  simpl. f_equal. f_equal.
  destruct (autocast_enabled (amp p) && (device t =? "cuda")%string); simpl;
    [|reflexivity].
  destruct t as [d dev v]. destruct d; reflexivity.
Qed.

Lemma nmap_map_id {A} (v : nested (list A)) : nmap (map id) v = v.
Proof.
  rewrite (nmap_ext _ (fun r => r)); [apply nmap_id|]. intros r. apply map_id.
Qed.

Lemma nmap_map_map {A B C} (f : A -> B) (g : B -> C) (v : nested (list A)) :
  nmap (map g) (nmap (map f) v) = nmap (map (fun x => g (f x))) v.
Proof.
  rewrite nmap_nmap. apply nmap_ext. intros r. apply List.map_map.
Qed.

Lemma autocast_float32_computed {G} (t : Tensor) (p : process G) :
  autocast_float32 t p =
  (Ok (mkTensor (compute_dtype (amp p) t) (device t)
         (nmap (map (compute_conv (amp p) t)) (value t))), p).
Proof.
  rewrite autocast_float32_run. unfold compute_dtype, compute_conv.
  destruct (autocast_applies (amp p) t); [reflexivity|].
  destruct t as [d dev v]. simpl. now rewrite nmap_map_id.
Qed.

(** A tensor already in the compute dtype of some input passes [rsqrt]'s
    widening unchanged. *)
Lemma autocast_float32_settled {G} (x : Tensor) (v : nested (list spec_float))
    (p : process G) :
  let s := mkTensor (compute_dtype (amp p) x) (device x) v in
  autocast_float32 s p = (Ok s, p).
Proof.
  simpl. rewrite autocast_float32_run. unfold compute_dtype, autocast_applies.
  simpl. destruct (autocast_enabled (amp p) && (device x =? "cuda")%string);
    simpl; [|reflexivity].
  destruct (t_dtype x); reflexivity.
Qed.

Lemma bind_ok {G A B} (m : M G A) (k : A -> M G B) (p p' : process G) (a : A) :
  m p = (Ok a, p') -> bind m k p = k a p'.
Proof. intros H. unfold bind. now rewrite H. Qed.

Lemma bind_raise {G A B} (m : M G A) (k : A -> M G B) (p p' : process G)
    (e : exception) :
  m p = (Raise e, p') -> bind m k p = (Raise e, p').
Proof. intros H. unfold bind. now rewrite H. Qed.

Lemma pow_2_run {G} (x : Tensor) (p : process G) :
  pow x 2 p =
  (Ok (mkTensor (compute_dtype (amp p) x) (device x)
         (nmap (map (fun v => fmul (compute_dtype (amp p) x)
                                (compute_conv (amp p) x v)
                                (compute_conv (amp p) x v))) (value x))), p).
Proof.
  unfold pow. erewrite bind_ok by apply autocast_float32_computed.
  unfold ret. cbn [t_dtype device value]. now rewrite nmap_map_map.
Qed.

Lemma rsqrt_settled_run {G} (x : Tensor) (v : nested (list spec_float))
    (p : process G) :
  rsqrt (mkTensor (compute_dtype (amp p) x) (device x) v) p =
  (Ok (mkTensor (compute_dtype (amp p) x) (device x)
         (nmap (map (frsqrt (compute_dtype (amp p) x))) v)), p).
Proof.
  unfold rsqrt. erewrite bind_ok by apply autocast_float32_settled.
  reflexivity.
Qed.

Lemma mul_run {G} (a b : Tensor) (p : process G) :
  mul a b p = (mul_result a b, p).
Proof. unfold mul, mul_result. destruct (product a b); reflexivity. Qed.

(** The input times the inverse root of its mean of squares, which has
    one entry for every slice. *)
Lemma product_factor (a : autocast_state) (x : Tensor) (eps : spec_float) :
  let c := compute_dtype a x in
  product x
    (mkTensor c (device x)
       (nmap (fun slice => [rms_factor c (compute_conv a x) eps slice]) (value x))) =
  Some (rms_unscaled a x eps).
Proof.
  intros c. unfold product. cbn [t_dtype device value].
  rewrite String.eqb_refl.
  erewrite broadcast_diag; [reflexivity|].
  induction (rows (value x)) as [|r l IH]; constructor; [|exact IH].
  apply pointwise_one_r.
Qed.

(** A weight that fits scales entry by entry. *)
Lemma product_fits (t w : Tensor) :
  fits t (Some w) -> product t w = Some (scale_by w t).
Proof.
  intros (ws & Hv & Hd & Hlen). unfold product, scale_by, data.
  rewrite Hd, String.eqb_refl, Hv. cbn [rows concat]. rewrite app_nil_r.
  erewrite broadcast_slice_r; [reflexivity|].
  unfold data in Hlen.
  induction Hlen as [|r l Hr _ IH]; constructor; [|exact IH].
  now apply pointwise_same_length.
Qed.

Lemma rms_norm_run (x : Tensor) (weight : option Tensor) (eps : spec_float)
    (p : process (gmap string norm_class)) :
  rms_norm x weight eps p = (rms_value (amp p) x weight eps, p).
Proof.
  unfold rms_norm. py_unfold.
  erewrite bind_ok by apply pow_2_run.
  unfold add_scalar, mean_keepdim. cbn [t_dtype device value].
  erewrite bind_ok by apply rsqrt_settled_run.
  rewrite !nmap_nmap. cbn [map].
  erewrite bind_ok.
  2:{ rewrite mul_run. unfold mul_result.
      pose proof (product_factor (amp p) x eps) as H. cbv zeta in H.
      unfold rms_factor in H. rewrite H. reflexivity. }
  destruct weight as [w|]; [apply mul_run | reflexivity].
Qed.

Lemma fits_transfer (x y : Tensor) (weight : option Tensor) :
  device y = device x -> map length (data y) = map length (data x) ->
  fits x weight -> fits y weight.
Proof.
  destruct weight as [w|]; [|auto]. intros Hd Hl (ws & Hv & Hdw & Hlen).
  exists ws. split; [exact Hv|]. split; [congruence|].
  apply (Forall_lengths (fun n => n = length ws) (data x)); [now symmetry | exact Hlen].
Qed.

Lemma rms_unscaled_lengths (a : autocast_state) (x : Tensor) (eps : spec_float) :
  map length (data (rms_unscaled a x eps)) = map length (data x).
Proof.
  apply lengths_rows_nmap. intros r. unfold rms_slice. apply length_map.
Qed.

Lemma rms_value_spec (a : autocast_state) (x : Tensor) (weight : option Tensor)
    (eps : spec_float) :
  fits x weight -> rms_value a x weight eps = Ok (rms_norm_spec a x weight eps).
Proof.
  intros Hfit. destruct weight as [w|]; [|reflexivity].
  cbn [rms_value rms_norm_spec]. unfold mul_result.
  rewrite product_fits; [reflexivity|].
  apply (fits_transfer x); [reflexivity | apply rms_unscaled_lengths | exact Hfit].
Qed.

(** With a weight that fits, [rms_norm] scales entry by entry. *)
Lemma rms_norm_spec_run (p : process (gmap string norm_class)) (x : Tensor)
    (weight : option Tensor) (eps : spec_float) :
  fits x weight ->
  rms_norm x weight eps p = (Ok (rms_norm_spec (amp p) x weight eps), p).
Proof. intros Hfit. now rewrite rms_norm_run, rms_value_spec. Qed.

(** C1: [rms_norm] returns [x * rsqrt(mean(x^2) + eps)], the mean taken
    over each slice along the trailing dimension and the factor shared by
    the slice: without a weight that tensor is the result, with a weight
    the result is its broadcasting product with the weight (the error of
    the product when the two do not broadcast), and with a weight that
    fits the input the product is entry by entry along every slice. *)
Theorem rms_norm_formula (p : process (gmap string norm_class)) (x : Tensor)
    (weight : option Tensor) (eps : spec_float) :
  rms_norm x None eps p = (Ok (rms_unscaled (amp p) x eps), p) /\
  (forall w, rms_norm x (Some w) eps p = mul (rms_unscaled (amp p) x eps) w p) /\
  (fits x weight ->
   rms_norm x weight eps p = (Ok (rms_norm_spec (amp p) x weight eps), p)).
Proof.
  split; [apply rms_norm_run|]. split; [|apply rms_norm_spec_run].
  intros w. now rewrite rms_norm_run, mul_run.
Qed.

Lemma rms_norm_formula_witness :
  rms_norm x_scenario (RMSNorm.weight rms_layer) eps_1e_05 p_off =
  (Ok (rms_norm_spec (amp p_off) x_scenario (RMSNorm.weight rms_layer) eps_1e_05),
   p_off).
Proof.
  apply (proj2 (proj2 (rms_norm_formula p_off x_scenario (RMSNorm.weight rms_layer)
                         eps_1e_05))).
  simpl. eexists. split; [reflexivity|]. split; [reflexivity|]. repeat constructor.
Defined.

(** ** The forward passes *)

Lemma cast_run_value (tensor : Tensor) (p : process (gmap string norm_class)) :
  _cast_if_autocast_enabled tensor p =
  (if cast_raises (amp p) tensor then Raise NotImplementedError
   else Ok (cast_value (amp p) tensor), p).
Proof.
  rewrite cast_run. unfold cast_raises, cast_value.
  destruct (autocast_enabled (amp p)); [|reflexivity].
  destruct (known_device (device tensor)); reflexivity.
Qed.

Lemma cast_parameter_run_value (t : option Tensor)
    (p : process (gmap string norm_class)) :
  cast_parameter t p =
  (if cast_parameter_raises (amp p) t then Raise NotImplementedError
   else Ok (option_map (cast_value (amp p)) t), p).
Proof.
  rewrite cast_parameter_run. destruct t as [t|]; [|reflexivity].
  rewrite cast_run_value. simpl. destruct (cast_raises (amp p) t); reflexivity.
Qed.

Lemma mul_result_dtype (a b out : Tensor) :
  mul_result a b = Ok out -> t_dtype out = promote_types (t_dtype a) (t_dtype b).
Proof.
  unfold mul_result, product. destruct (device a =? device b)%string; [|discriminate].
  destruct (broadcast _ _ _); [|discriminate]. cbn. now intros [= <-].
Qed.

Lemma rms_value_dtype (a : autocast_state) (x : Tensor) (weight : option Tensor)
    (eps : spec_float) (out : Tensor) :
  rms_value a x weight eps = Ok out ->
  t_dtype out =
  match weight with
  | Some w => promote_types (promote_types (t_dtype x) (compute_dtype a x)) (t_dtype w)
  | None => promote_types (t_dtype x) (compute_dtype a x)
  end.
Proof.
  destruct weight as [w|]; cbn [rms_value].
  - intros H. now apply mul_result_dtype in H.
  - now intros [= <-].
Qed.

Lemma RMSNorm_forward_run (self : RMSNorm.t) (x : Tensor)
    (p : process (gmap string norm_class)) :
  RMSNorm.forward self x p =
  (result_map (to (t_dtype x))
     (rms_value (amp p) (float x) (RMSNorm.weight self) (RMSNorm.eps self)), p).
Proof.
  unfold RMSNorm.forward. py_unfold. unfold bind. rewrite rms_norm_run.
  now destruct (rms_value _ _ _ _).
Qed.

(** The forward pass of [LPRMSNorm]: the error of the precision cast, or
    the error of [torch.autocast], or the outcome of [rms_norm] on the
    cast operands inside the block, cast back. *)
Lemma LPRMSNorm_forward_run (self : RMSNorm.t) (x : Tensor)
    (p : process (gmap string norm_class)) :
  LPRMSNorm.forward self x p =
  (if cast_raises (amp p) x || cast_parameter_raises (amp p) (RMSNorm.weight self)
   then Raise NotImplementedError
   else if autocast_available (amp p) (device x)
   then result_map (to (t_dtype x))
          (rms_value (amp (inside_autocast (device x) false p))
             (cast_value (amp p) x)
             (option_map (cast_value (amp p)) (RMSNorm.weight self))
             (RMSNorm.eps self))
   else Raise RuntimeError, p).
Proof.
  unfold LPRMSNorm.forward. py_unfold.
  pose proof (cast_run_value x p) as Hx.
  destruct (cast_raises (amp p) x); simpl orb.
  { now erewrite bind_raise by exact Hx. }
  erewrite bind_ok by exact Hx.
  pose proof (cast_parameter_run_value (RMSNorm.weight self) p) as Hw.
  destruct (cast_parameter_raises (amp p) (RMSNorm.weight self)).
  { now erewrite bind_raise by exact Hw. }
  erewrite bind_ok by exact Hw.
  rewrite autocast_run.
  - destruct (autocast_available (amp p) (device x)); [|reflexivity].
    unfold bind. rewrite rms_norm_run. now destruct (rms_value _ _ _ _).
  - apply stateless_bind; [apply stateless_rms_norm | intros; apply stateless_ret].
Qed.

Lemma autocast_float32_opt_run {G} (t : option Tensor) (p : process G) :
  exists t', autocast_float32_opt t p = (Ok t', p).
Proof.
  destruct t as [t|]; simpl; [|eexists; reflexivity].
  erewrite bind_ok by apply autocast_float32_run. eexists; reflexivity.
Qed.

(** [layer_norm] returns a tensor of the dtype its input is computed in,
    or raises. *)
Lemma layer_norm_dtype {G} (input : Tensor) (n : nat) (weight bias : option Tensor)
    (eps : spec_float) (p : process G) (out : Tensor) :
  fst (layer_norm input n weight bias eps p) = Ok out ->
  t_dtype out = (if autocast_applies (amp p) input then float32 else t_dtype input).
Proof.
  unfold layer_norm.
  erewrite bind_ok by apply autocast_float32_run.
  destruct (autocast_float32_opt_run (G:=G) weight p) as (w' & Hw).
  destruct (autocast_float32_opt_run (G:=G) bias p) as (b' & Hb).
  erewrite bind_ok by exact Hw. erewrite bind_ok by exact Hb. cbv zeta.
  destruct (_ && _ && _); [|discriminate]. cbn [fst ret]. intros [= <-].
  cbn [t_dtype]. destruct (autocast_applies (amp p) input); reflexivity.
Qed.

(** Inside the block no tensor on the device of the block is widened. *)
Lemma autocast_applies_inside {G} (dev : string) (p : process G) (t : Tensor) :
  device t = dev ->
  autocast_applies (amp (inside_autocast dev false p)) t = false.
Proof.
  intros <-. unfold autocast_applies, inside_autocast.
  destruct (device t =? "cuda")%string; [reflexivity|].
  now rewrite andb_false_r.
Qed.

(** The forward pass of [LPLayerNorm]: the error of the precision cast,
    or the error of [torch.autocast], or the outcome of [layer_norm] on
    the cast operands inside the block. *)
Lemma LPLayerNorm_forward_run (self : LayerNorm.t) (x : Tensor)
    (p : process (gmap string norm_class)) :
  LPLayerNorm.forward self x p =
  (if cast_raises (amp p) x
      || cast_parameter_raises (amp p) (LayerNorm.weight self)
      || cast_parameter_raises (amp p) (LayerNorm.bias self)
   then Raise NotImplementedError
   else if autocast_available (amp p) (device x)
   then fst (layer_norm (cast_value (amp p) x) (LayerNorm.normalized_shape self)
               (option_map (cast_value (amp p)) (LayerNorm.weight self))
               (option_map (cast_value (amp p)) (LayerNorm.bias self))
               (LayerNorm.eps self) (inside_autocast (device x) false p))
   else Raise RuntimeError, p).
Proof.
  unfold LPLayerNorm.forward. cbv zeta. py_unfold.
  pose proof (cast_run_value x p) as Hx.
  destruct (cast_raises (amp p) x); simpl orb.
  { now erewrite bind_raise by exact Hx. }
  erewrite bind_ok by exact Hx.
  pose proof (cast_parameter_run_value (LayerNorm.weight self) p) as Hw.
  destruct (cast_parameter_raises (amp p) (LayerNorm.weight self)); simpl orb.
  { now erewrite bind_raise by exact Hw. }
  erewrite bind_ok by exact Hw.
  pose proof (cast_parameter_run_value (LayerNorm.bias self) p) as Hb.
  destruct (cast_parameter_raises (amp p) (LayerNorm.bias self)).
  { now erewrite bind_raise by exact Hb. }
  erewrite bind_ok by exact Hb.
  rewrite autocast_run by apply stateless_layer_norm. reflexivity.
Qed.

(** ** Properties of rms_norm and of the layers *)

Lemma cast_identity_when_disabled_witness :
  _cast_if_autocast_enabled x_cuda p_off = (Ok x_cuda, p_off).
Proof. apply (cast_identity_when_disabled p_off x_cuda). reflexivity. Defined.

Lemma cast_output_dtype_witness :
  exists out, fst (_cast_if_autocast_enabled x_cuda p_on) = Ok out /\
              t_dtype out = float16.
Proof.
  apply (proj1 (cast_output_dtype p_on x_cuda eq_refl)). reflexivity.
Defined.

Lemma compute_dtype_disabled (a : autocast_state) (x : Tensor) :
  autocast_enabled a = false -> compute_dtype a x = t_dtype x.
Proof. unfold compute_dtype, autocast_applies. now intros ->. Qed.

Lemma compute_dtype_float (a : autocast_state) (x : Tensor) :
  compute_dtype a (float x) = float32.
Proof.
  unfold compute_dtype, autocast_applies, float. rewrite to_dtype.
  now destruct (autocast_enabled a && (device (to float32 x) =? "cuda")%string).
Qed.

Lemma to_keeps_device (d : dtype) (t : Tensor) : device (to d t) = device t.
Proof. unfold to. destruct (decide (t_dtype t = d)); reflexivity. Qed.

Lemma to_lengths (d : dtype) (t : Tensor) :
  map length (data (to d t)) = map length (data t).
Proof.
  unfold to. destruct (decide (t_dtype t = d)); [reflexivity|].
  apply lengths_rows_nmap. intros r. apply length_map.
Qed.

Lemma fits_to_input (d : dtype) (x : Tensor) (weight : option Tensor) :
  fits x weight -> fits (to d x) weight.
Proof. apply fits_transfer; [apply to_keeps_device | apply to_lengths]. Qed.

(** C2, as the code has it: [rms_norm] makes no cast of its own. Run with
    autocast disabled, the tensor it returns has the promoted dtype of
    its operands (the dtype of [x] when there is no weight), and it
    returns one whenever the weight fits the input. The cast to float32
    is made by [RMSNorm.forward] before the call, so the tensor
    [rms_norm] returns there, before it is cast back, is float32
    (promoted with the dtype of the weight) whatever the dtype of [x]. *)
Theorem rms_norm_output_dtype :
  (forall (p : process (gmap string norm_class)) x weight eps,
     autocast_enabled (amp p) = false ->
     (forall out,
        fst (rms_norm x weight eps p) = Ok out ->
        t_dtype out = match weight with
                      | Some w => promote_types (t_dtype x) (t_dtype w)
                      | None => t_dtype x
                      end) /\
     (fits x weight -> exists out, rms_norm x weight eps p = (Ok out, p))) /\
  (forall (p : process (gmap string norm_class)) self x,
     (forall mid,
        fst (rms_norm (float x) (RMSNorm.weight self) (RMSNorm.eps self) p) = Ok mid ->
        t_dtype mid = match RMSNorm.weight self with
                      | Some w => promote_types float32 (t_dtype w)
                      | None => float32
                      end /\
        RMSNorm.forward self x p = (Ok (to (t_dtype x) mid), p)) /\
     (fits x (RMSNorm.weight self) ->
      exists mid,
        rms_norm (float x) (RMSNorm.weight self) (RMSNorm.eps self) p = (Ok mid, p))).
Proof.
  split.
  - intros p x weight eps Hoff. split.
    + intros out. rewrite rms_norm_run. cbn [fst]. intros H.
      rewrite (rms_value_dtype _ _ _ _ _ H).
      now rewrite compute_dtype_disabled, promote_types_idem by exact Hoff.
    + intros Hfit. eexists. now apply rms_norm_spec_run.
  - intros p self x. split.
    + intros mid. rewrite rms_norm_run, RMSNorm_forward_run. cbn [fst]. intros H.
      rewrite H. split; [|reflexivity].
      rewrite (rms_value_dtype _ _ _ _ _ H), compute_dtype_float.
      unfold float. now rewrite to_dtype.
    + intros Hfit. eexists. apply rms_norm_spec_run. now apply fits_to_input.
Qed.

(** C2 fails as stated: on a bfloat16 input, with autocast disabled,
    [rms_norm] returns a bfloat16 tensor. *)
Lemma rms_norm_keeps_bfloat16 :
  exists out, fst (rms_norm x_bfloat16 None eps_1e_05 p_off) = Ok out /\
              t_dtype out = bfloat16.
Proof. eexists. split; reflexivity. Qed.

Lemma rms_norm_output_dtype_witness :
  exists out,
    rms_norm x_bfloat16 None eps_1e_05 p_off = (Ok out, p_off) /\
    t_dtype out = bfloat16.
Proof.
  destruct (proj1 rms_norm_output_dtype p_off x_bfloat16 None eps_1e_05 eq_refl)
    as [Hd Hex].
  destruct (Hex I) as (out & Hout).
  exists out. split; [exact Hout|]. apply Hd. now rewrite Hout.
Defined.

Lemma cast_value_dtype (a : autocast_state) (t : Tensor) :
  t_dtype (cast_value a t) =
  if autocast_enabled a then autocast_dtype a (device t) else t_dtype t.
Proof.
  unfold cast_value. destruct (autocast_enabled a); [apply to_dtype | reflexivity].
Qed.

Lemma cast_value_device (a : autocast_state) (t : Tensor) :
  device (cast_value a t) = device t.
Proof.
  unfold cast_value. destruct (autocast_enabled a); [apply to_keeps_device | reflexivity].
Qed.

Lemma cast_value_lengths (a : autocast_state) (t : Tensor) :
  map length (data (cast_value a t)) = map length (data t).
Proof.
  unfold cast_value. destruct (autocast_enabled a); [apply to_lengths | reflexivity].
Qed.

Lemma to_slice (d : dtype) (w : Tensor) (ws : list spec_float) :
  value w = Slice ws -> exists ws', value (to d w) = Slice ws' /\ length ws' = length ws.
Proof.
  intros Hv. unfold to. destruct (decide (t_dtype w = d)); [eauto|].
  cbn [value]. rewrite Hv. eexists. split; [reflexivity | apply length_map].
Qed.

Lemma fits_cast (a : autocast_state) (x : Tensor) (weight : option Tensor) :
  fits x weight ->
  fits (cast_value a x) (option_map (cast_value a) weight).
Proof.
  destruct weight as [w|]; [|auto]. intros (ws & Hv & Hd & Hlen).
  cbn [option_map fits].
  assert (Hw : exists ws', value (cast_value a w) = Slice ws' /\ length ws' = length ws).
  { unfold cast_value. destruct (autocast_enabled a); [now apply to_slice | eauto]. }
  destruct Hw as (ws' & Hv' & Hl'). exists ws'. split; [exact Hv'|].
  split; [rewrite !cast_value_device; exact Hd|]. rewrite Hl'.
  apply (Forall_lengths (fun n => n = length ws) (data x));
    [symmetry; apply cast_value_lengths | exact Hlen].
Qed.

(** Under [fits] the weight is on the device of the input, and the
    precision cast raises on both or on neither. *)
Lemma fits_cast_raises (a : autocast_state) (x : Tensor) (weight : option Tensor) :
  fits x weight ->
  cast_raises a x || cast_parameter_raises a weight = cast_raises a x.
Proof.
  destruct weight as [w|]; cbn [cast_parameter_raises]; [|intros _; apply orb_false_r].
  intros (ws & _ & Hd & _). unfold cast_raises. rewrite Hd. apply orb_diag.
Qed.

(** C3: a tensor returned by [RMSNorm.forward] or by [LPRMSNorm.forward]
    has the dtype of [x], whatever dtype was computed in. On an input its
    weight fits, [RMSNorm.forward] returns a tensor, and so does
    [LPRMSNorm.forward] when the precision cast accepts the device of [x]
    and torch has an autocast backend for it. *)
Theorem rms_layers_preserve_dtype
    (p : process (gmap string norm_class)) (self : RMSNorm.t) (x : Tensor) :
  (forall out, fst (RMSNorm.forward self x p) = Ok out -> t_dtype out = t_dtype x) /\
  (forall out, fst (LPRMSNorm.forward self x p) = Ok out -> t_dtype out = t_dtype x) /\
  (fits x (RMSNorm.weight self) ->
   (exists out, RMSNorm.forward self x p = (Ok out, p) /\ t_dtype out = t_dtype x) /\
   (cast_raises (amp p) x = false ->
    autocast_available (amp p) (device x) = true ->
    exists out, LPRMSNorm.forward self x p = (Ok out, p) /\ t_dtype out = t_dtype x)).
Proof.
  split; [|split].
  - intros out. rewrite RMSNorm_forward_run. cbn [fst].
    destruct (rms_value _ _ _ _); [|discriminate]. cbn. intros [= <-]. apply to_dtype.
  - intros out. rewrite LPRMSNorm_forward_run. cbn [fst].
    destruct (_ || _); [discriminate|].
    destruct (autocast_available _ _); [|discriminate].
    destruct (rms_value _ _ _ _); [|discriminate]. cbn. intros [= <-]. apply to_dtype.
  - intros Hfit. split.
    + rewrite RMSNorm_forward_run, rms_value_spec by now apply fits_to_input.
      eexists. split; [reflexivity | apply to_dtype].
    + intros Hc Ha. rewrite LPRMSNorm_forward_run, (fits_cast_raises _ _ _ Hfit), Hc, Ha.
      rewrite rms_value_spec by now apply fits_cast.
      eexists. split; [reflexivity | apply to_dtype].
Qed.

Lemma rms_layers_preserve_dtype_witness :
  (exists out, RMSNorm.forward rms_layer_cuda x_cuda p_on = (Ok out, p_on) /\
               t_dtype out = float32) /\
  (exists out, LPRMSNorm.forward rms_layer_cuda x_cuda p_on = (Ok out, p_on) /\
               t_dtype out = float32).
Proof.
  destruct (proj2 (proj2 (rms_layers_preserve_dtype p_on rms_layer_cuda x_cuda)))
    as [H1 H2].
  { eexists. split; [reflexivity|]. split; [reflexivity | repeat constructor]. }
  split; [exact H1 | apply H2; reflexivity].
Defined.

(** The unsupported-device error of the precision cast comes out of the
    layer: with autocast enabled, [LPRMSNorm.forward] on a tensor of an
    "mps" device raises it. *)
Example LPRMSNorm_forward_raises_on_mps :
  fst (LPRMSNorm.forward rms_layer_mps x_mps p_on) = Raise NotImplementedError.
Proof. reflexivity. Qed.

(** C10, as the code has it: on a float32 input and outside autocast,
    [RMSNorm.forward] and [LPRMSNorm.forward] of the same layer state
    return the same tensor, or raise the same error, and leave the same
    process, provided torch has an autocast backend for the device of
    the input. *)
Theorem rms_layers_agree_on_float32
    (p : process (gmap string norm_class)) (self : RMSNorm.t) (x : Tensor) :
  t_dtype x = float32 ->
  autocast_enabled (amp p) = false ->
  autocast_available (amp p) (device x) = true ->
  RMSNorm.forward self x p = LPRMSNorm.forward self x p.
Proof.
  intros Hx Hoff Ha.
  rewrite RMSNorm_forward_run, LPRMSNorm_forward_run, Ha.
  rewrite inside_autocast_disabled by exact Hoff.
  assert (Hfloat : float x = x) by (unfold float; rewrite <- Hx; apply to_same).
  rewrite Hfloat.
  destruct (RMSNorm.weight self) as [w|];
    unfold cast_parameter_raises, cast_raises, cast_value;
    rewrite Hoff; reflexivity.
Qed.

Lemma rms_layers_agree_on_float32_witness :
  RMSNorm.forward rms_layer x_scenario p_off =
  LPRMSNorm.forward rms_layer x_scenario p_off.
Proof.
  apply (rms_layers_agree_on_float32 p_off rms_layer x_scenario); reflexivity.
Defined.

(** C10 fails as stated: on the float32 tensor [x_meta], with autocast
    disabled, [RMSNorm.forward] returns a tensor and [LPRMSNorm.forward]
    of the same layer raises: [torch.autocast] has no backend for the
    device "meta". *)
Lemma rms_layers_differ_without_autocast_backend :
  t_dtype x_meta = float32 /\
  autocast_enabled (amp p_off) = false /\
  (exists out, fst (RMSNorm.forward rms_layer_meta x_meta p_off) = Ok out) /\
  fst (LPRMSNorm.forward rms_layer_meta x_meta p_off) = Raise RuntimeError.
Proof.
  split; [reflexivity|]. split; [reflexivity|]. split; [|reflexivity].
  eexists. reflexivity.
Qed.

(** C8: [LPLayerNorm.forward] passes the input, the weight and the bias
    each through the precision cast, runs the layer normalization on the
    cast operands inside a block with autocast off, and returns that
    result as it is: its dtype is the dtype of the cast input (on a cuda
    tensor under autocast, the GPU autocast dtype), not the dtype the
    input came in. The errors of the cast, of [torch.autocast] and of the
    layer normalization come out unchanged. *)
Theorem LPLayerNorm_forward_follows_cast :
  (forall (p : process (gmap string norm_class)) self x,
     LPLayerNorm.forward self x p =
     (if cast_raises (amp p) x
         || cast_parameter_raises (amp p) (LayerNorm.weight self)
         || cast_parameter_raises (amp p) (LayerNorm.bias self)
      then Raise NotImplementedError
      else if autocast_available (amp p) (device x)
      then fst (layer_norm
                  (cast_value (amp p) x)
                  (LayerNorm.normalized_shape self)
                  (option_map (cast_value (amp p)) (LayerNorm.weight self))
                  (option_map (cast_value (amp p)) (LayerNorm.bias self))
                  (LayerNorm.eps self)
                  (inside_autocast (device x) false p))
      else Raise RuntimeError, p)) /\
  (forall (p : process (gmap string norm_class)) self x out,
     fst (LPLayerNorm.forward self x p) = Ok out ->
     t_dtype out = if autocast_enabled (amp p)
                   then autocast_dtype (amp p) (device x)
                   else t_dtype x) /\
  (exists out,
     fst (LPLayerNorm.forward ln_layer_cuda x_cuda p_on) = Ok out /\
     t_dtype out = float16 /\ t_dtype x_cuda = float32).
Proof.
  split; [intros p self x; apply LPLayerNorm_forward_run|]. split.
  - intros p self x out. rewrite LPLayerNorm_forward_run. cbn [fst].
    destruct (_ || _ || _); [discriminate|].
    destruct (autocast_available _ _); [|discriminate].
    intros H. apply layer_norm_dtype in H. rewrite H.
    rewrite autocast_applies_inside by apply cast_value_device.
    apply cast_value_dtype.
  - eexists. split; [reflexivity|]. split; reflexivity.
Qed.

Lemma LPLayerNorm_forward_follows_cast_witness :
  exists out,
    fst (LPLayerNorm.forward ln_layer_cuda x_cuda p_on) = Ok out /\
    t_dtype out = float16.
Proof.
  eexists. split; [reflexivity|].
  apply (proj1 (proj2 LPLayerNorm_forward_follows_cast) p_on ln_layer_cuda x_cuda).
  reflexivity.
Defined.

(** ** The registry *)

(** C9: the registry has exactly the four keys "layernorm",
    "low_precision_layernorm", "rmsnorm" and "low_precision_rmsnorm",
    bound to [torch.nn.LayerNorm], [LPLayerNorm], [RMSNorm] and
    [LPRMSNorm]; it is bound when the module is imported and no sequence
    of operations of the module changes it. *)
Theorem registry_is_fixed :
  (forall key cls,
     NORM_CLASS_REGISTRY !! key = Some cls <->
     (key, cls) ∈ [("layernorm"%string, cls_LayerNorm);
                   ("low_precision_layernorm"%string, cls_LPLayerNorm);
                   ("rmsnorm"%string, cls_RMSNorm);
                   ("low_precision_rmsnorm"%string, cls_LPRMSNorm)]) /\
  dom NORM_CLASS_REGISTRY =
    ({["layernorm"%string; "low_precision_layernorm"%string;
       "rmsnorm"%string; "low_precision_rmsnorm"%string]} : gset string) /\
  (forall a, globals (import_module a) = NORM_CLASS_REGISTRY) /\
  (forall p os, globals (run_operations os p) = globals p) /\
  (forall a os,
     globals (run_operations os (import_module a)) = NORM_CLASS_REGISTRY).
Proof.
  split; [|split; [|split; [|split]]].
  - intros key cls. unfold NORM_CLASS_REGISTRY. split.
    + intros H.
      repeat (apply lookup_insert_Some in H as [[<- <-]|[_ H]];
              [set_solver|]).
      now rewrite lookup_empty in H.
    + intros H. repeat (apply elem_of_cons in H as [[= -> ->]|H];
                        [reflexivity|]).
      now apply elem_of_nil in H.
  - unfold NORM_CLASS_REGISTRY. rewrite !dom_insert_L, dom_empty_L. set_solver.
  - reflexivity.
  - intros p os. now rewrite run_operations_id.
  - intros a os. now rewrite run_operations_id.
Qed.

(** ** The scenarios of the specification *)

(** Shape [2,4], no scale, [eps=1e-5]: the first slice has unit root mean
    square and comes out as [0.999995...] four times, the second comes
    out as [1.99999..., 0, 0, 0]. *)
Example rms_norm_scenario :
  fst (rms_norm x_scenario None eps_1e_05 p_off) =
  Ok (mkTensor float32 "cpu"
        (matrix (replicate 4 (S754_finite false 16777132 (-24)))
           [[S754_finite false 16777132 (-23); S754_zero false;
             S754_zero false; S754_zero false]])).
Proof. reflexivity. Qed.

(** The registry entry "rmsnorm", instantiated with [normalized_shape=4],
    is a layer whose scale is four ones. *)
Example rmsnorm_from_registry :
  (cls ← NORM_CLASS_REGISTRY !! "rmsnorm"%string;
   Some (instantiate cls 4 eps_1e_05 true None None)) =
  Some (obj_RMSNorm
          (RMSNorm.mk eps_1e_05
             (Some (mkTensor float32 "cpu"
                      (Slice (replicate 4 (S754_finite false 8388608 (-23)))))))).
Proof. reflexivity. Qed.

(** A layer norm built with [elementwise_affine=False] has neither scale
    nor bias. *)
Example layernorm_without_affine :
  LayerNorm.weight (LayerNorm.init 4 eps_1e_05 false None None) = None /\
  LayerNorm.bias (LayerNorm.init 4 eps_1e_05 false None None) = None.
Proof. split; reflexivity. Qed.

(** A weight that does not broadcast against the input, and a weight on
    another device: [rms_norm] raises the error of the product. *)
Example rms_norm_misfit_weight :
  fst (rms_norm x_scenario (Some (ones 3 float32 "cpu")) eps_1e_05 p_off) =
  Raise RuntimeError /\
  fst (rms_norm x_scenario (Some (ones 4 float32 "cuda")) eps_1e_05 p_off) =
  Raise RuntimeError.
Proof. split; reflexivity. Qed.

(** [layer_norm] refuses an input whose trailing dimension is not the
    normalized shape and parameters of another dtype than the input; on a
    device without autocast backend [LPLayerNorm.forward] raises the
    error of [torch.autocast]. *)
Example layer_norm_refuses :
  fst (LayerNorm.forward (LayerNorm.init 3 eps_1e_05 true None None) x_scenario p_off) =
  Raise RuntimeError /\
  fst (LayerNorm.forward (LayerNorm.init 4 eps_1e_05 true None (Some bfloat16))
         x_scenario p_off) =
  Raise RuntimeError /\
  fst (LPLayerNorm.forward (LayerNorm.init 4 eps_1e_05 true (Some "meta"%string) None)
         x_meta p_off) =
  Raise RuntimeError.
Proof. repeat split. Qed.

(** Broadcasting over the leading dimensions: a tensor of shape [2,2]
    against one of shape [2,2,2] is paired with each of the two stacked
    matrices; a tensor of shape [4,2] does not broadcast against it. *)
Example broadcast_leading_dimensions :
  let add (r s : list Z) := Some (zip_with Z.add r s) in
  let x := Stack (matrix [1; 2] [[3; 4]]) [matrix [5; 6] [[7; 8]]] in
  broadcast add x (matrix [10; 20] [[30; 40]]) =
  Some (Stack (matrix [11; 22] [[33; 44]]) [matrix [15; 26] [[37; 48]]]) /\
  broadcast add x (matrix [1; 1] [[2; 2]; [3; 3]; [4; 4]]) = None /\
  broadcast add (matrix [1; 2] []) (matrix [10; 20] [[30; 40]]) =
  Some (matrix [11; 22] [[31; 42]]).
Proof. repeat split. Qed.

(** ** The all-zero slice *)

Lemma ones_finite (n : nat) (d : dtype) (dev : string) :
  finite_weight (Some (ones n d dev)).
Proof.
  cbn. constructor; [|constructor]. apply Forall_replicate.
  destruct d; (split; [reflexivity | vm_compute; repeat split; discriminate]).
Qed.

Lemma rms_unscaled_row (a : autocast_state) (x : Tensor) (eps : spec_float)
    (i : nat) (slice : list spec_float) :
  data x !! i = Some slice ->
  data (rms_unscaled a x eps) !! i =
  Some (rms_slice (compute_dtype a x) (promote_types (t_dtype x) (compute_dtype a x))
          (compute_conv a x) eps slice).
Proof. intros Hi. unfold rms_unscaled, data. cbn [value]. now apply lookup_rows_nmap. Qed.

Lemma scale_by_row (w t : Tensor) (ws u : list spec_float) (i : nat) :
  value w = Slice ws -> data t !! i = Some u ->
  data (scale_by w t) !! i =
  Some (zip_with (fmul (promote_types (t_dtype t) (t_dtype w))) u ws).
Proof.
  intros Hv Hi. unfold scale_by, data. cbn [value].
  erewrite lookup_rows_nmap by exact Hi. rewrite Hv. cbn [rows concat].
  now rewrite app_nil_r.
Qed.

Lemma weight_row (w : Tensor) (ws : list spec_float) (P : spec_float -> Prop) :
  value w = Slice ws -> Forall (Forall P) (data w) -> Forall P ws.
Proof. unfold data. intros ->. cbn [rows]. apply Forall_inv. Qed.

(** C7, as the code has it: when [eps], rounded to the dtype [rms_norm]
    computes in, is still above zero, and the weight (if any) is
    one-dimensional, as long as the slices, on the device of the input
    and holds finite numbers, every all-zero slice along the trailing
    dimension is mapped to a slice of zeros of the same length: its
    entries are neither NaN nor infinite. The default [1e-05] stays above
    zero in each of the four dtypes. *)
Theorem zero_slice_maps_to_zeros :
  (forall (p : process (gmap string norm_class)) x weight eps i slice,
     fits x weight -> finite_weight weight ->
     data x !! i = Some slice ->
     Forall (fun v => is_zero v = true) slice ->
     is_positive (rounded_eps (compute_dtype (amp p) x) eps) = true ->
     exists out oslice,
       rms_norm x weight eps p = (Ok out, p) /\
       data out !! i = Some oslice /\
       length oslice = length slice /\
       Forall (fun v => is_zero v = true) oslice) /\
  (forall c, is_positive (rounded_eps c eps_1e_05) = true).
Proof.
  split; [|intros []; vm_compute; reflexivity].
  intros p x weight eps i slice Hfit Hfw Hi Hz Hpos.
  rewrite (rms_norm_spec_run p x weight eps Hfit).
  pose proof (rms_unscaled_row (amp p) x eps i slice Hi) as Hrow.
  set (c := compute_dtype (amp p) x) in *.
  set (d := promote_types (t_dtype x) c) in *.
  assert (Hzeros : Forall (fun v => is_zero v = true)
                     (rms_slice c d (compute_conv (amp p) x) eps slice)).
  { apply rms_slice_zeros; try assumption.
    - apply wider_promote_r.
    - apply compute_conv_zero. }
  destruct weight as [w|]; cbn [rms_norm_spec].
  - destruct Hfit as (ws & Hw & _ & Hlen). cbn [finite_weight] in Hfw.
    apply (weight_row w ws _ Hw) in Hfw.
    do 2 eexists. split; [reflexivity|].
    split; [apply (scale_by_row w _ ws _ i Hw Hrow)|]. split.
    + rewrite length_zip_with. unfold rms_slice. rewrite length_map.
      pose proof (Forall_lookup_1 _ _ _ _ Hlen Hi) as Hl. simpl in Hl. lia.
    + eapply scaled_zeros; [apply wider_promote_r | exact Hzeros | exact Hfw].
  - do 2 eexists. split; [reflexivity|]. split; [exact Hrow|]. split; [|exact Hzeros].
    unfold rms_slice. now rewrite length_map.
Qed.

Lemma zero_slice_maps_to_zeros_witness :
  exists out oslice,
    rms_norm x_zero (RMSNorm.weight rms_layer) eps_1e_05 p_off = (Ok out, p_off) /\
    data out !! 0%nat = Some oslice /\
    length oslice = 4%nat /\
    Forall (fun v => is_zero v = true) oslice.
Proof.
  apply (proj1 zero_slice_maps_to_zeros p_off x_zero (RMSNorm.weight rms_layer)
           eps_1e_05 0%nat (replicate 4 (S754_zero false))).
  - eexists. split; [reflexivity|]. split; [reflexivity | repeat constructor].
  - apply ones_finite.
  - reflexivity.
  - repeat constructor.
  - reflexivity.
Defined.

(** C7 fails as stated: [2.0 ** -200] is above zero, yet it rounds to
    zero in float32, and on an all-zero float32 slice [rms_norm] then
    returns NaN in every entry. *)
Lemma zero_slice_nan_for_tiny_eps :
  SFltb (S754_zero false) eps_tiny = true /\
  fst (rms_norm x_zero None eps_tiny p_off) =
  Ok (mkTensor float32 "cpu" (matrix [S754_nan; S754_nan; S754_nan; S754_nan] [])).
Proof. split; reflexivity. Qed.

(** ** Further properties of rms_norm, the cast and the layers *)

Lemma same_shape_refl (t : Tensor) : same_shape t t.
Proof. reflexivity. Qed.

Lemma same_shape_trans (a b c : Tensor) :
  same_shape a b -> same_shape b c -> same_shape a c.
Proof. unfold same_shape. congruence. Qed.

Lemma shape_nmap (f : list spec_float -> list spec_float)
    (v : nested (list spec_float)) :
  Forall (fun r => length (f r) = length r) (rows v) ->
  nmap (@length spec_float) (nmap f v) = nmap (@length spec_float) v.
Proof. intros H. rewrite nmap_nmap. now apply nmap_ext_rows. Qed.

Lemma Forall_rows {A} (P : A -> Prop) (l : list A) :
  (forall r, P r) -> Forall P l.
Proof. intros H. induction l; constructor; auto. Qed.

Lemma to_same_shape (d : dtype) (t : Tensor) : same_shape t (to d t).
Proof.
  unfold to. destruct (decide (t_dtype t = d)); [apply same_shape_refl|].
  symmetry. apply shape_nmap, Forall_rows. intros r. apply length_map.
Qed.

Lemma rms_unscaled_shape (a : autocast_state) (x : Tensor) (eps : spec_float) :
  same_shape x (rms_unscaled a x eps).
Proof.
  symmetry. apply shape_nmap, Forall_rows. intros r. unfold rms_slice. apply length_map.
Qed.

Lemma scale_by_shape (w t : Tensor) (ws : list spec_float) :
  value w = Slice ws -> Forall (fun slice => length slice = length ws) (data t) ->
  same_shape t (scale_by w t).
Proof.
  intros Hw Hlen. unfold same_shape, scale_by, data. cbn [value]. rewrite Hw.
  cbn [rows concat]. rewrite app_nil_r. symmetry. apply shape_nmap.
  unfold data in Hlen. induction Hlen as [|slice l Hs _ IH]; constructor; [|exact IH].
  rewrite length_zip_with. lia.
Qed.

Lemma rms_norm_spec_shape (a : autocast_state) (x : Tensor)
    (weight : option Tensor) (eps : spec_float) :
  fits x weight ->
  same_shape x (rms_norm_spec a x weight eps) /\
  device (rms_norm_spec a x weight eps) = device x.
Proof.
  intros Hfit. destruct weight as [w|]; cbn [rms_norm_spec].
  - split; [|reflexivity].
    eapply same_shape_trans; [apply rms_unscaled_shape|].
    destruct (fits_transfer x (rms_unscaled a x eps) (Some w) eq_refl
                (rms_unscaled_lengths a x eps) Hfit) as (ws & Hw & _ & Hlen).
    now apply (scale_by_shape w _ ws).
  - split; [apply rms_unscaled_shape | reflexivity].
Qed.

Lemma cast_value_shape (a : autocast_state) (t : Tensor) :
  same_shape t (cast_value a t) /\ device (cast_value a t) = device t.
Proof.
  split; [|apply cast_value_device].
  unfold cast_value. destruct (autocast_enabled a);
    [apply to_same_shape | apply same_shape_refl].
Qed.

(** X1: on an input its weight fits, [rms_norm] and [RMSNorm.forward]
    return a tensor of the shape of the input, on the device of the
    input. [LPRMSNorm.forward] raises the unsupported-device error when
    the precision cast does, raises the error of [torch.autocast] when
    torch has no autocast backend for the device of the input, and
    otherwise returns a tensor of that shape on that device. *)
Theorem rms_keeps_shape_and_device
    (p : process (gmap string norm_class)) (self : RMSNorm.t) (x : Tensor) :
  fits x (RMSNorm.weight self) ->
  (exists out,
     rms_norm x (RMSNorm.weight self) (RMSNorm.eps self) p = (Ok out, p) /\
     same_shape x out /\ device out = device x) /\
  (exists out,
     RMSNorm.forward self x p = (Ok out, p) /\
     same_shape x out /\ device out = device x) /\
  (if cast_raises (amp p) x
   then LPRMSNorm.forward self x p = (Raise NotImplementedError, p)
   else if autocast_available (amp p) (device x)
   then exists out,
          LPRMSNorm.forward self x p = (Ok out, p) /\
          same_shape x out /\ device out = device x
   else LPRMSNorm.forward self x p = (Raise RuntimeError, p)).
Proof.
  intros Hfit. split; [|split].
  - eexists. split; [now apply rms_norm_spec_run|].
    now apply rms_norm_spec_shape.
  - assert (Hf : fits (float x) (RMSNorm.weight self)) by now apply fits_to_input.
    rewrite RMSNorm_forward_run, (rms_value_spec _ _ _ _ Hf).
    eexists. split; [reflexivity|].
    destruct (rms_norm_spec_shape (amp p) (float x) (RMSNorm.weight self)
                (RMSNorm.eps self) Hf) as [Hs Hd].
    split.
    + eapply same_shape_trans; [apply to_same_shape|].
      eapply same_shape_trans; [exact Hs | apply to_same_shape].
    + rewrite to_keeps_device, Hd. apply to_keeps_device.
  - rewrite LPRMSNorm_forward_run, (fits_cast_raises _ _ _ Hfit).
    destruct (cast_raises (amp p) x); [reflexivity|].
    destruct (autocast_available (amp p) (device x)); [|reflexivity].
    pose proof (fits_cast (amp p) x (RMSNorm.weight self) Hfit) as Hf.
    rewrite (rms_value_spec _ _ _ _ Hf).
    eexists. split; [reflexivity|].
    destruct (rms_norm_spec_shape (amp (inside_autocast (device x) false p))
                (cast_value (amp p) x)
                (option_map (cast_value (amp p)) (RMSNorm.weight self))
                (RMSNorm.eps self) Hf) as [Hs Hd].
    destruct (cast_value_shape (amp p) x) as [Hcs Hcd].
    split.
    + eapply same_shape_trans; [exact Hcs|].
      eapply same_shape_trans; [exact Hs | apply to_same_shape].
    + rewrite to_keeps_device. etransitivity; [exact Hd | exact Hcd].
Qed.

Lemma rms_keeps_shape_and_device_witness :
  (exists out,
     rms_norm x_cuda (RMSNorm.weight rms_layer_cuda) (RMSNorm.eps rms_layer_cuda) p_on
     = (Ok out, p_on) /\
     same_shape x_cuda out /\ device out = device x_cuda) /\
  (exists out,
     RMSNorm.forward rms_layer_cuda x_cuda p_on = (Ok out, p_on) /\
     same_shape x_cuda out /\ device out = device x_cuda) /\
  (exists out,
     LPRMSNorm.forward rms_layer_cuda x_cuda p_on = (Ok out, p_on) /\
     same_shape x_cuda out /\ device out = device x_cuda).
Proof.
  apply (rms_keeps_shape_and_device p_on rms_layer_cuda x_cuda).
  eexists. split; [reflexivity|]. split; [reflexivity | repeat constructor].
Defined.

Lemma cast_value_disabled (a : autocast_state) (t : Tensor) :
  autocast_enabled a = false -> cast_value a t = t.
Proof. unfold cast_value. now intros ->. Qed.

Lemma cast_values_disabled (a : autocast_state) (t : option Tensor) :
  autocast_enabled a = false -> option_map (cast_value a) t = t.
Proof.
  intros H. destruct t as [t|]; [|reflexivity].
  cbn [option_map]. now rewrite cast_value_disabled.
Qed.

Lemma cast_never_raises_disabled (a : autocast_state) (t : Tensor)
    (w : option Tensor) :
  autocast_enabled a = false ->
  cast_raises a t = false /\ cast_parameter_raises a w = false.
Proof.
  intros H. unfold cast_parameter_raises, cast_raises. rewrite H.
  now destruct w.
Qed.

(** X2: with autocast disabled, on an input of a device torch has an
    autocast backend for, [LPLayerNorm.forward] is the forward of
    [torch.nn.LayerNorm]: same result or same error, same process. *)
Theorem LPLayerNorm_is_LayerNorm_outside_autocast
    (p : process (gmap string norm_class)) (self : LayerNorm.t) (x : Tensor) :
  autocast_enabled (amp p) = false ->
  autocast_available (amp p) (device x) = true ->
  LPLayerNorm.forward self x p = LayerNorm.forward self x p.
Proof.
  intros Hoff Ha. rewrite LPLayerNorm_forward_run, Ha.
  destruct (cast_never_raises_disabled (amp p) x (LayerNorm.weight self) Hoff)
    as [-> ->].
  destruct (cast_never_raises_disabled (amp p) x (LayerNorm.bias self) Hoff)
    as [_ ->].
  cbn [orb]. rewrite cast_value_disabled, !cast_values_disabled by exact Hoff.
  rewrite inside_autocast_disabled by exact Hoff.
  unfold LayerNorm.forward.
  pose proof (stateless_layer_norm x (LayerNorm.normalized_shape self)
                (LayerNorm.weight self) (LayerNorm.bias self)
                (LayerNorm.eps self) p) as Hs.
  destruct (layer_norm x (LayerNorm.normalized_shape self) (LayerNorm.weight self)
              (LayerNorm.bias self) (LayerNorm.eps self) p) as [r p'].
  cbn [fst snd] in *. now subst p'.
Qed.

Lemma LPLayerNorm_is_LayerNorm_outside_autocast_witness :
  LPLayerNorm.forward ln_layer_cuda x_cuda p_off =
  LayerNorm.forward ln_layer_cuda x_cuda p_off.
Proof.
  apply (LPLayerNorm_is_LayerNorm_outside_autocast p_off ln_layer_cuda x_cuda);
    reflexivity.
Defined.

Lemma to_settled (d : dtype) (t : Tensor) : t_dtype t = d -> to d t = t.
Proof. intros <-. apply to_same. Qed.

(** X3: the precision cast is idempotent. A tensor it returned is
    returned unchanged when cast again in the same process; the cast keeps
    the device and the shape of its argument. *)
Theorem cast_is_idempotent
    (p : process (gmap string norm_class)) (tensor out : Tensor) :
  fst (_cast_if_autocast_enabled tensor p) = Ok out ->
  _cast_if_autocast_enabled out p = (Ok out, p) /\
  device out = device tensor /\ same_shape tensor out.
Proof.
  rewrite !cast_run_value. cbn [fst].
  destruct (cast_raises (amp p) tensor) eqn:Hr; [discriminate|].
  intros [= <-]. destruct (cast_value_shape (amp p) tensor) as [Hs Hd].
  split; [|split; assumption].
  unfold cast_raises in *. rewrite Hd, Hr. f_equal. f_equal.
  unfold cast_value at 1. destruct (autocast_enabled (amp p)) eqn:He; [|reflexivity].
  rewrite Hd. apply to_settled. unfold cast_value. rewrite He. apply to_dtype.
Qed.

Lemma cast_is_idempotent_witness :
  _cast_if_autocast_enabled (to float16 x_cuda) p_on = (Ok (to float16 x_cuda), p_on) /\
  device (to float16 x_cuda) = device x_cuda /\
  same_shape x_cuda (to float16 x_cuda).
Proof.
  apply (cast_is_idempotent p_on x_cuda (to float16 x_cuda)). reflexivity.
Defined.

Lemma autocast_applies_float (a : autocast_state) (x : Tensor) :
  autocast_applies a (float x) = false.
Proof.
  unfold autocast_applies, float. rewrite to_dtype. apply andb_false_r.
Qed.

(** X4: the result of [RMSNorm.forward] does not depend on the autocast
    state of the process: the layer computes on [x.float()], which
    autocast leaves alone. *)
Theorem RMSNorm_forward_ignores_autocast
    (a a' : autocast_state) (g : gmap string norm_class)
    (self : RMSNorm.t) (x : Tensor) :
  fst (RMSNorm.forward self x (mkProcess a g)) =
  fst (RMSNorm.forward self x (mkProcess a' g)).
Proof.
  rewrite !RMSNorm_forward_run. cbn [fst amp]. f_equal.
  unfold rms_value, rms_unscaled, compute_dtype, compute_conv.
  now rewrite !autocast_applies_float.
Qed.

Lemma rms_norm_spec_dtype (a : autocast_state) (x : Tensor)
    (weight : option Tensor) (eps : spec_float) :
  t_dtype (rms_norm_spec a x weight eps) =
  match weight with
  | Some w => promote_types (promote_types (t_dtype x) (compute_dtype a x)) (t_dtype w)
  | None => promote_types (t_dtype x) (compute_dtype a x)
  end.
Proof. destruct weight; reflexivity. Qed.

(** X5: with autocast enabled, on an input of a cuda or cpu device whose
    weight fits it, [LPRMSNorm.forward] does not raise: it runs
    [rms_norm] on the input and the weight both cast to the autocast
    dtype of the device, the intermediate result has that dtype, and the
    layer returns it cast back to the dtype of the input. *)
Theorem LPRMSNorm_computes_in_autocast_dtype
    (p : process (gmap string norm_class)) (self : RMSNorm.t) (x : Tensor) :
  autocast_enabled (amp p) = true ->
  known_device (device x) = true ->
  fits x (RMSNorm.weight self) ->
  let g := autocast_dtype (amp p) (device x) in
  let q := inside_autocast (device x) false p in
  exists mid,
    rms_norm (to g x) (option_map (to g) (RMSNorm.weight self)) (RMSNorm.eps self) q
    = (Ok mid, q) /\
    t_dtype mid = g /\
    LPRMSNorm.forward self x p = (Ok (to (t_dtype x) mid), p).
Proof.
  intros Hon Hdev Hfit g q. subst g q.
  assert (Ex : cast_value (amp p) x = to (autocast_dtype (amp p) (device x)) x).
  { unfold cast_value. now rewrite Hon. }
  assert (Ew : option_map (cast_value (amp p)) (RMSNorm.weight self) =
               option_map (to (autocast_dtype (amp p) (device x))) (RMSNorm.weight self)).
  { destruct (RMSNorm.weight self) as [w|]; [|reflexivity].
    destruct Hfit as (ws & _ & Hd & _). cbn [option_map]. unfold cast_value.
    now rewrite Hon, Hd. }
  pose proof (fits_cast (amp p) x (RMSNorm.weight self) Hfit) as Hf.
  rewrite Ex, Ew in Hf.
  eexists. split; [now apply rms_norm_spec_run|]. split.
  - rewrite rms_norm_spec_dtype. unfold compute_dtype.
    rewrite autocast_applies_inside by apply to_keeps_device.
    rewrite !to_dtype, promote_types_idem.
    destruct (RMSNorm.weight self); cbn [option_map];
      [rewrite to_dtype|]; apply promote_types_idem || reflexivity.
  - rewrite LPRMSNorm_forward_run, (fits_cast_raises _ _ _ Hfit).
    unfold cast_raises at 1. rewrite Hdev, andb_false_r.
    rewrite (known_device_available _ _ Hdev), Ex, Ew.
    now rewrite (rms_value_spec _ _ _ _ Hf).
Qed.

Lemma LPRMSNorm_computes_in_autocast_dtype_witness :
  exists mid,
    rms_norm (to float16 x_cuda)
      (option_map (to float16) (RMSNorm.weight rms_layer_cuda))
      (RMSNorm.eps rms_layer_cuda) (inside_autocast "cuda" false p_on)
    = (Ok mid, inside_autocast "cuda" false p_on) /\
    t_dtype mid = float16 /\
    LPRMSNorm.forward rms_layer_cuda x_cuda p_on = (Ok (to float32 mid), p_on).
Proof.
  apply (LPRMSNorm_computes_in_autocast_dtype p_on rms_layer_cuda x_cuda).
  - reflexivity.
  - reflexivity.
  - eexists. split; [reflexivity|]. split; [reflexivity | repeat constructor].
Defined.

(** *** NaN entries *)

Lemma fmul_nan_l (d : dtype) (v : spec_float) : fmul d S754_nan v = S754_nan.
Proof. reflexivity. Qed.

Lemma fmul_nan_r (d : dtype) (v : spec_float) : fmul d v S754_nan = S754_nan.
Proof.
  unfold fmul, binop. cbn [round_to].
  now destruct (round_to (opmath d) v).
Qed.

Lemma SFsum_nan (p e : Z) (l : list spec_float) :
  Exists (fun v => v = S754_nan) l -> SFsum p e l = S754_nan.
Proof.
  unfold SFsum. generalize (S754_zero false).
  assert (Hnan : forall l', fold_left (SFadd p e) l' S754_nan = S754_nan).
  { induction l' as [|v l' IH]; [reflexivity | exact IH]. }
  intros acc H. revert acc. induction H as [v l ->|v l _ IH]; intros acc; simpl.
  - replace (SFadd p e acc S754_nan) with S754_nan by now destruct acc.
    apply Hnan.
  - apply IH.
Qed.

Lemma fmean_nan (d : dtype) (l : list spec_float) :
  Exists (fun v => v = S754_nan) l -> fmean d l = S754_nan.
Proof.
  intros H. unfold fmean. rewrite SFsum_nan; [reflexivity|].
  induction H as [v l ->|v l _ IH]; simpl; [left; reflexivity | right; exact IH].
Qed.

Lemma frsqrt_nan (d : dtype) : frsqrt d S754_nan = S754_nan.
Proof.
  unfold frsqrt, unop, SFrsqrt. cbn [round_to SFsqrt].
  now destruct (SFone (prec (opmath d)) (emax (opmath d))).
Qed.

Lemma compute_conv_nan (a : autocast_state) (x : Tensor) :
  compute_conv a x S754_nan = S754_nan.
Proof. unfold compute_conv. now destruct (autocast_applies a x). Qed.

Lemma rms_slice_nan (c d : dtype) (conv : spec_float -> spec_float)
    (eps : spec_float) (slice : list spec_float) :
  conv S754_nan = S754_nan ->
  Exists (fun v => v = S754_nan) slice ->
  Forall (fun v => v = S754_nan) (rms_slice c d conv eps slice).
Proof.
  intros Hconv Hex. unfold rms_slice.
  assert (Hfac : rms_factor c conv eps slice = S754_nan).
  { unfold rms_factor. rewrite fmean_nan; [apply frsqrt_nan|].
    induction Hex as [v l ->|v l _ IH]; simpl; [left | right; exact IH].
    now rewrite Hconv. }
  rewrite Hfac. clear. induction slice; simpl; constructor; [apply fmul_nan_r | assumption].
Qed.

Lemma scaled_nan (d : dtype) (slice ws : list spec_float) :
  Forall (fun v => v = S754_nan) slice ->
  Forall (fun v => v = S754_nan) (zip_with (fmul d) slice ws).
Proof.
  intros H. revert ws. induction H as [|u l -> _ IH]; intros [|w ws]; simpl;
    constructor; [reflexivity | apply IH].
Qed.

(** X6: one NaN entry turns its whole slice into NaN: the mean of the
    squares of the slice is NaN, and so is every product with its inverse
    square root, scaled or not. *)
Theorem nan_poisons_its_slice
    (p : process (gmap string norm_class)) (x : Tensor)
    (weight : option Tensor) (eps : spec_float)
    (i : nat) (slice : list spec_float) :
  fits x weight ->
  data x !! i = Some slice ->
  Exists (fun v => v = S754_nan) slice ->
  exists out oslice,
    rms_norm x weight eps p = (Ok out, p) /\
    data out !! i = Some oslice /\
    length oslice = length slice /\
    Forall (fun v => v = S754_nan) oslice.
Proof.
  intros Hfit Hi Hex. rewrite (rms_norm_spec_run p x weight eps Hfit).
  pose proof (rms_unscaled_row (amp p) x eps i slice Hi) as Hrow.
  set (c := compute_dtype (amp p) x) in *.
  set (d := promote_types (t_dtype x) c) in *.
  pose proof (rms_slice_nan c d (compute_conv (amp p) x) eps slice
                (compute_conv_nan _ _) Hex) as Hnan.
  destruct weight as [w|]; cbn [rms_norm_spec].
  - destruct Hfit as (ws & Hw & _ & Hlen).
    do 2 eexists. split; [reflexivity|].
    split; [apply (scale_by_row w _ ws _ i Hw Hrow)|]. split.
    + rewrite length_zip_with. unfold rms_slice. rewrite length_map.
      pose proof (Forall_lookup_1 _ _ _ _ Hlen Hi) as Hl. simpl in Hl. lia.
    + now apply scaled_nan.
  - do 2 eexists. split; [reflexivity|]. split; [exact Hrow|].
    split; [|exact Hnan]. unfold rms_slice. now rewrite length_map.
Qed.

Lemma nan_poisons_its_slice_witness :
  exists out oslice,
    rms_norm x_nan (RMSNorm.weight rms_layer) eps_1e_05 p_off = (Ok out, p_off) /\
    data out !! 0%nat = Some oslice /\
    length oslice = 4%nat /\
    Forall (fun v => v = S754_nan) oslice.
Proof.
  apply (nan_poisons_its_slice p_off x_nan (RMSNorm.weight rms_layer) eps_1e_05
           0%nat [of_Z float32 1; S754_nan; of_Z float32 2; of_Z float32 3]).
  - eexists. split; [reflexivity|]. split; [reflexivity | repeat constructor].
  - reflexivity.
  - apply Exists_cons_tl, Exists_cons_hd. reflexivity.
Defined.

(** *** Overflow of the squares *)

Lemma round_to_nonneg (d : dtype) (v : spec_float) :
  nonneg v = true -> nonneg (round_to d v) = true.
Proof.
  destruct v as [s|s| |s m e]; try (intros H; exact H). cbn [round_to].
  pose proof (binary_round_spec (prec d) (emax d) (dtype_prec_pos d) (dtype_emax_ge d) s m e) as H.
  destruct s; [discriminate|]. intros _.
  destruct (binary_round (prec d) (emax d) false m e) as [s'|s'| |s' m' e'];
    try contradiction; now destruct H as [-> _].
Qed.

Lemma round_to_keeps_sign (d : dtype) (s : bool) (m : positive) (e : Z) :
  match round_to d (S754_finite s m e) with
  | S754_zero s' | S754_infinity s' | S754_finite s' _ _ => s' = s
  | S754_nan => False
  end.
Proof.
  cbn [round_to].
  pose proof (binary_round_spec (prec d) (emax d) (dtype_prec_pos d) (dtype_emax_ge d) s m e) as H.
  destruct (binary_round (prec d) (emax d) s m e); try exact H; now destruct H.
Qed.

Lemma SFmul_square_nonneg (d : dtype) (v : spec_float) :
  v <> S754_nan -> nonneg (SFmul (prec d) (emax d) v v) = true.
Proof.
  intros Hv. destruct v as [[]|[]| |s m e]; try reflexivity; [contradiction|].
  cbn [SFmul].
  pose proof (binary_round_aux_spec (prec d) (emax d) (dtype_prec_pos d) (dtype_emax_ge d)
                (xorb s s) (Z.pos (m * m)) (e + e) loc_Exact ltac:(lia)) as H.
  rewrite xorb_nilpotent in *.
  destruct (binary_round_aux (prec d) (emax d) false (Z.pos (m * m)) (e + e) loc_Exact);
    try contradiction; now destruct H as [-> _].
Qed.

Lemma round_to_not_nan (d : dtype) (v : spec_float) :
  v <> S754_nan -> round_to d v <> S754_nan.
Proof.
  destruct v as [s|s| |s m e]; try (intros H; exact H).
  intros _ E. pose proof (round_to_keeps_sign d s m e) as H. now rewrite E in H.
Qed.

Lemma square_nonneg (d : dtype) (u : spec_float) :
  u <> S754_nan -> nonneg (fmul d u u) = true.
Proof.
  intros Hu. unfold fmul, binop. apply round_to_nonneg.
  apply SFmul_square_nonneg. now apply round_to_not_nan.
Qed.

Lemma SFadd_nonneg (d : dtype) (x y : spec_float) :
  nonneg x = true -> nonneg y = true ->
  nonneg (SFadd (prec d) (emax d) x y) = true.
Proof.
  destruct x as [[]|[]| |[] mx ex]; try discriminate;
    destruct y as [[]|[]| |[] my ey]; try discriminate; try reflexivity.
  intros _ _. cbn [SFadd cond_Zopp]. 
  destruct (shl_align mx ex (Z.min ex ey)) as [m1 e1].
  destruct (shl_align my ey (Z.min ex ey)) as [m2 e2]. cbn [fst].
  change (Z.pos m1 + Z.pos m2) with (Z.pos (m1 + m2)). cbn [binary_normalize].
  pose proof (binary_round_spec (prec d) (emax d) (dtype_prec_pos d) (dtype_emax_ge d)
                false (m1 + m2) (Z.min ex ey)) as H.
  destruct (binary_round (prec d) (emax d) false (m1 + m2) (Z.min ex ey));
    try contradiction; now destruct H as [-> _].
Qed.

Lemma SFadd_inf_l (p e : Z) (y : spec_float) :
  nonneg y = true -> SFadd p e (S754_infinity false) y = S754_infinity false.
Proof. destruct y as [[]|[]| |[] my ey]; try discriminate; reflexivity. Qed.

Lemma SFadd_inf_r (p e : Z) (x : spec_float) :
  nonneg x = true -> SFadd p e x (S754_infinity false) = S754_infinity false.
Proof. destruct x as [[]|[]| |[] mx ex]; try discriminate; reflexivity. Qed.

Lemma SFsum_overflow (d : dtype) (l : list spec_float) :
  Forall (fun v => nonneg v = true) l ->
  Exists (fun v => v = S754_infinity false) l ->
  SFsum (prec d) (emax d) l = S754_infinity false.
Proof.
  unfold SFsum.
  assert (Hinf : forall l', Forall (fun v => nonneg v = true) l' ->
            fold_left (SFadd (prec d) (emax d)) l' (S754_infinity false)
            = S754_infinity false).
  { induction 1 as [|v l' Hv _ IH]; [reflexivity|]. cbn [fold_left].
    now rewrite SFadd_inf_l. }
  assert (Hacc : nonneg (S754_zero false) = true) by reflexivity.
  revert Hacc. generalize (S754_zero false).
  intros acc Hacc Hall Hex. revert acc Hacc Hall.
  induction Hex as [v l ->|v l _ IH]; intros acc Hacc Hall; cbn [fold_left].
  - rewrite SFadd_inf_r by exact Hacc. apply Hinf. now inversion Hall.
  - inversion Hall; subst. apply IH; [|assumption]. now apply SFadd_nonneg.
Qed.

Lemma opmath_emax (d : dtype) : 128 <= emax (opmath d).
Proof. destruct d; discriminate. Qed.

Lemma of_Z_count_finite (d : dtype) (n : Z) :
  0 < n < 2 ^ 127 ->
  exists m e, of_Z (opmath d) n = S754_finite false m e.
Proof.
  intros [Hpos Hlt]. destruct n as [|q|q]; try lia.
  unfold of_Z. cbn [binary_normalize]. set (o := opmath d).
  pose proof (binary_round_spec (prec o) (emax o) (dtype_prec_pos o) (dtype_emax_ge o)
                false q 0) as H.
  pose proof (emin_neg o). pose proof (opmath_emax d). fold o in H1.
  pose proof (Zdigits2_bounds (Z.pos q) ltac:(lia)) as [Blo _]. cbn [Zdigits2] in Blo.
  assert (Hd : Z.pos (digits2_pos q) <= 127).
  { assert (2 ^ (Z.pos (digits2_pos q) - 1) < 2 ^ 127) by lia.
    apply pow2_lt_inv in H2; lia. }
  destruct (binary_round (prec o) (emax o) false q 0) as [s|s| |s m e].
  - lia.
  - lia.
  - contradiction.
  - destruct H as [-> _]. eauto.
Qed.

Lemma fmean_overflow (d : dtype) (l : list spec_float) :
  Z.of_nat (length l) < 2 ^ 127 ->
  Forall (fun v => nonneg v = true) l ->
  Exists (fun v => v = S754_infinity false) l ->
  fmean d l = S754_infinity false.
Proof.
  intros Hlen Hall Hex. unfold fmean.
  rewrite (SFsum_overflow (opmath d)).
  - destruct (of_Z_count_finite d (Z.of_nat (length l))) as (m & e & ->);
      [|reflexivity].
    split; [|exact Hlen]. destruct Hex; simpl; lia.
  - clear Hex Hlen. induction Hall as [|v l Hv _ IH]; simpl; constructor;
      [now apply round_to_nonneg | exact IH].
  - clear Hall Hlen. induction Hex as [v l ->|v l _ IH]; simpl;
      [left; reflexivity | right; exact IH].
Qed.

Lemma positive_rounded_eps (c : dtype) (eps : spec_float) :
  is_positive (rounded_eps c eps) = true ->
  is_positive (round_to (opmath c) eps) = true.
Proof.
  unfold rounded_eps, fadd, binop. cbn [round_to].
  destruct (round_to (opmath c) eps) as [s|s| |s m e] eqn:E.
  - now destruct s.
  - now destruct s.
  - discriminate.
  - cbn [SFadd]. pose proof (round_to_keeps_sign c s m e) as H.
    destruct (round_to c (S754_finite s m e)) as [s'|s'| |s' m' e'];
      try discriminate; subst s'; now destruct s.
Qed.

Lemma fadd_inf_eps (c : dtype) (eps : spec_float) :
  is_positive (rounded_eps c eps) = true ->
  fadd c (S754_infinity false) eps = S754_infinity false.
Proof.
  intros H. apply positive_rounded_eps in H. unfold fadd, binop. cbn [round_to].
  destruct (round_to (opmath c) eps) as [s|[]| |[] m e]; try discriminate; reflexivity.
Qed.

Lemma frsqrt_inf (c : dtype) : frsqrt c (S754_infinity false) = S754_zero false.
Proof. destruct c; reflexivity. Qed.

Lemma wider_promote_l (a b : dtype) : wider a (opmath (promote_types a b)).
Proof. destruct a, b; repeat split; discriminate. Qed.

Lemma fmul_finite_zero (c d : dtype) (v z : spec_float) :
  wider c (opmath d) -> in_format c v ->
  is_finite v = true -> is_zero z = true ->
  is_zero (fmul d v z) = true.
Proof.
  intros Hw Hin Hv Hz. unfold fmul, binop.
  destruct z as [sz| | |]; try discriminate. cbn [round_to].
  destruct v as [sv|sv| |sv m e]; try discriminate; [reflexivity|].
  destruct (round_to_widen c (opmath d) sv m e Hw Hin) as (m' & e' & -> & _).
  reflexivity.
Qed.

Lemma compute_conv_not_nan (a : autocast_state) (x : Tensor) (v : spec_float) :
  v <> S754_nan -> compute_conv a x v <> S754_nan.
Proof.
  unfold compute_conv. destruct (autocast_applies a x); [|auto].
  apply round_to_not_nan.
Qed.

Lemma rms_slice_overflow (a : autocast_state) (x : Tensor) (eps : spec_float)
    (slice : list spec_float) :
  let c := compute_dtype a x in
  let d := promote_types (t_dtype x) c in
  Forall (fun v => is_finite v = true /\ in_format (t_dtype x) v) slice ->
  Exists (fun v => squared a x v = S754_infinity false) slice ->
  Z.of_nat (length slice) < 2 ^ 127 ->
  is_positive (rounded_eps c eps) = true ->
  Forall (fun v => is_zero v = true) (rms_slice c d (compute_conv a x) eps slice).
Proof.
  intros c d Hfin Hex Hlen Hpos. unfold rms_slice.
  assert (Hfac : rms_factor c (compute_conv a x) eps slice = S754_zero false).
  { unfold rms_factor. rewrite fmean_overflow.
    - rewrite fadd_inf_eps by exact Hpos. apply frsqrt_inf.
    - now rewrite length_map.
    - clear Hex Hlen. induction Hfin as [|v l [Hv _] _ IH]; simpl; constructor;
        [|exact IH].
      apply square_nonneg, compute_conv_not_nan. now destruct v.
    - clear Hfin Hlen. induction Hex as [v l Hv|v l _ IH]; simpl;
        [left; exact Hv | right; exact IH]. }
  rewrite Hfac. clear Hex Hlen Hfac.
  induction Hfin as [|v l [Hv Hin] _ IH]; simpl; constructor; [|exact IH].
  apply (fmul_finite_zero (t_dtype x) d); auto. apply wider_promote_l.
Qed.

(** X7: when the square of a finite entry overflows the compute type,
    the whole slice is returned as zeros: the mean of the squares is plus
    infinity, its inverse square root is zero, and every finite entry
    times zero is zero. *)
Theorem overflowing_squares_collapse_the_slice
    (p : process (gmap string norm_class)) (x : Tensor)
    (weight : option Tensor) (eps : spec_float)
    (i : nat) (slice : list spec_float) :
  fits x weight -> finite_weight weight ->
  data x !! i = Some slice ->
  Forall (fun v => is_finite v = true /\ in_format (t_dtype x) v) slice ->
  Exists (fun v => squared (amp p) x v = S754_infinity false) slice ->
  Z.of_nat (length slice) < 2 ^ 127 ->
  is_positive (rounded_eps (compute_dtype (amp p) x) eps) = true ->
  exists out oslice,
    rms_norm x weight eps p = (Ok out, p) /\
    data out !! i = Some oslice /\
    length oslice = length slice /\
    Forall (fun v => is_zero v = true) oslice.
Proof.
  intros Hfit Hfw Hi Hfin Hex Hlen Hpos.
  rewrite (rms_norm_spec_run p x weight eps Hfit).
  pose proof (rms_unscaled_row (amp p) x eps i slice Hi) as Hrow.
  pose proof (rms_slice_overflow (amp p) x eps slice Hfin Hex Hlen Hpos) as Hzeros.
  cbv zeta in Hzeros.
  set (c := compute_dtype (amp p) x) in *.
  set (d := promote_types (t_dtype x) c) in *.
  destruct weight as [w|]; cbn [rms_norm_spec].
  - destruct Hfit as (ws & Hw & _ & Hl). cbn [finite_weight] in Hfw.
    apply (weight_row w ws _ Hw) in Hfw.
    do 2 eexists. split; [reflexivity|].
    split; [apply (scale_by_row w _ ws _ i Hw Hrow)|]. split.
    + rewrite length_zip_with. unfold rms_slice. rewrite length_map.
      pose proof (Forall_lookup_1 _ _ _ _ Hl Hi) as Hl'. simpl in Hl'. lia.
    + eapply scaled_zeros; [apply wider_promote_r | exact Hzeros | exact Hfw].
  - do 2 eexists. split; [reflexivity|]. split; [exact Hrow|]. split; [|exact Hzeros].
    unfold rms_slice. now rewrite length_map.
Qed.

Lemma overflowing_squares_collapse_the_slice_witness :
  exists out oslice,
    rms_norm x_large None eps_1e_05 p_off = (Ok out, p_off) /\
    data out !! 0%nat = Some oslice /\
    length oslice = 2%nat /\
    Forall (fun v => is_zero v = true) oslice.
Proof.
  apply (overflowing_squares_collapse_the_slice p_off x_large None eps_1e_05
           0%nat [of_Z float16 300; of_Z float16 1]).
  - exact I.
  - exact I.
  - reflexivity.
  - repeat constructor; vm_compute; congruence.
  - apply Exists_cons_hd. reflexivity.
  - reflexivity.
  - reflexivity.
Defined.

(** *** Canonical results and the scale one *)

(** A finite result of [binary_round] is canonical in the format: its
    exponent is the one the format assigns to its magnitude. *)
Lemma binary_round_canonical (prec emax : Z) (sx : bool) (mx : positive) (ex : Z) :
  0 < prec ->
  match binary_round prec emax sx mx ex with
  | S754_finite _ m e =>
      SpecFloat.fexp prec emax (Z.pos (digits2_pos m) + e) = e /\ e <= emax - prec
  | _ => True
  end.
Proof.
  intros prec_pos. unfold binary_round.
  destruct (shl_align_spec mx ex
              (SpecFloat.fexp prec emax (Z.pos (digits2_pos mx) + ex)))
    as (mz & ez & -> & Hez & Hmag).
  unfold binary_round_aux.
  destruct (shr_fexp_spec prec emax (Z.pos mz) ez loc_Exact ltac:(lia))
    as (mrs1 & e1 & -> & Hn1 & He1 & Hd1 & _).
  pose proof (round_nearest_even_bounds (shr_m mrs1) (loc_of_shr_record mrs1)) as Hr.
  set (m1 := round_nearest_even (shr_m mrs1) (loc_of_shr_record mrs1)) in *.
  assert (Hm1 : 0 <= m1) by lia.
  destruct (shr_fexp_spec prec emax m1 e1 loc_Exact Hm1)
    as (mrs2 & e2 & -> & Hn2 & He2 & Hd2 & _).
  pose proof (Zdigits2_le (shr_m mrs1) m1 ltac:(lia)) as Hle.
  cbn [Zdigits2] in He1, Hd1. rewrite Hmag in He1, Hd1.
  unfold SpecFloat.fexp, SpecFloat.emin in *.
  destruct (shr_m mrs2) as [|m|m] eqn:Hm2; try exact I.
  destruct (Z.leb_spec e2 (emax - prec)) as [Hle2|Hgt2]; [|exact I].
  cbn [Zdigits2] in Hd2. split; [|exact Hle2]. lia.
Qed.

(** Rounding a canonical number of the format returns it. *)
Lemma binary_round_id (prec emax : Z) (sx : bool) (mx : positive) (ex : Z) :
  SpecFloat.fexp prec emax (Z.pos (digits2_pos mx) + ex) = ex ->
  ex <= emax - prec ->
  binary_round prec emax sx mx ex = S754_finite sx mx ex.
Proof.
  intros Hc Hb. unfold binary_round, shl_align. rewrite Hc, Z.sub_diag.
  unfold binary_round_aux.
  destruct (shr_fexp_spec prec emax (Z.pos mx) ex loc_Exact ltac:(lia))
    as (mrs1 & e1 & -> & _ & He1 & _ & Hsame).
  cbn [Zdigits2] in He1. rewrite Hc, Z.max_id in He1. subst e1.
  rewrite (Hsame eq_refl).
  cbn [shr_record_of_loc loc_of_shr_record shr_m round_nearest_even].
  destruct (shr_fexp_spec prec emax (Z.pos mx) ex loc_Exact ltac:(lia))
    as (mrs2 & e2 & -> & _ & He2 & _ & Hsame2).
  cbn [Zdigits2] in He2. rewrite Hc, Z.max_id in He2. subst e2.
  rewrite (Hsame2 eq_refl). cbn [shr_record_of_loc shr_m].
  now apply Z.leb_le in Hb as ->.
Qed.

Lemma shr_23 (m : positive) :
  SpecFloat.iter_pos shr_1 23
    (Build_shr_record (Z.pos (8388608 * m)) false false) =
  Build_shr_record (Z.pos m) false false.
Proof. reflexivity. Qed.

(** In float32, a canonical number times one is the number. *)
Lemma SFmul_one_float32 (s : bool) (m : positive) (e : Z) :
  SpecFloat.fexp 24 128 (Z.pos (digits2_pos m) + e) = e -> e <= 104 ->
  SFmul 24 128 (S754_finite s m e) (S754_finite false 8388608 (-23)) =
  S754_finite s m e.
Proof.
  intros Hc Hb. cbn [SFmul]. rewrite xorb_false_r.
  unfold binary_round_aux, shr_fexp.
  assert (Hd : Zdigits2 (Z.pos (m * 8388608)) = Z.pos (digits2_pos m) + 23).
  { rewrite Pos2Z.inj_mul. apply (Zdigits2_shift m 23). lia. }
  rewrite Hd.
  replace (Z.pos (digits2_pos m) + 23 + (e + -23)) with (Z.pos (digits2_pos m) + e) by lia.
  rewrite Hc.
  replace (e - (e + -23)) with 23 by lia.
  cbn [shr shr_record_of_loc]. rewrite (Pos.mul_comm m 8388608), shr_23.
  cbn [loc_of_shr_record shr_m round_nearest_even Zdigits2].
  replace (e + -23 + 23) with e by lia. rewrite Hc, Z.sub_diag.
  cbn [shr shr_m].
  assert (Hle : (e <=? 128 - 24) = true) by (apply Z.leb_le; lia).
  now rewrite Hle.
Qed.

Lemma one_as_float32 (d : dtype) :
  d <> float64 -> round_to float32 (of_Z d 1) = S754_finite false 8388608 (-23).
Proof. destruct d; [reflexivity..|congruence]. Qed.

(** In float32, a rounded number times the one of a dtype no wider than
    float32 is the number. *)
Lemma fmul_one_float32 (d : dtype) (w : spec_float) :
  d <> float64 ->
  fmul float32 (round_to float32 w) (of_Z d 1) = round_to float32 w.
Proof.
  intros Hd. unfold fmul, binop. cbn [opmath]. rewrite (one_as_float32 d Hd).
  cbn [prec emax].
  destruct w as [[]|[]| |s m e]; try reflexivity.
  cbn [round_to prec emax].
  pose proof (binary_round_canonical 24 128 s m e ltac:(lia)) as Hc.
  destruct (binary_round 24 128 s m e) as [[]|[]| |s' m' e']; try reflexivity.
  destruct Hc as [Hc Hb]. cbn [round_to prec emax].
  rewrite (binary_round_id 24 128 s' m' e' Hc Hb).
  rewrite (SFmul_one_float32 s' m' e' Hc ltac:(lia)).
  cbn [round_to prec emax]. apply (binary_round_id 24 128 s' m' e' Hc Hb).
Qed.

(** A float32 tensor whose entries are rounded, scaled by ones of a dtype
    no wider than float32, is the tensor. *)
Lemma scale_by_ones (t : Tensor) (n : nat) (d : dtype) (dev : string) :
  d <> float64 ->
  t_dtype t = float32 ->
  Forall (fun slice => length slice = n /\
            Forall (fun u => exists w, u = round_to float32 w) slice) (data t) ->
  scale_by (ones n d dev) t = t.
Proof.
  destruct t as [dt dv v]. unfold data. cbn [t_dtype value]. intros Hd -> Hrows.
  unfold scale_by, ones, data. cbn [t_dtype device value rows concat].
  assert (Hp : promote_types float32 d = float32) by now destruct d.
  rewrite Hp, app_nil_r. f_equal.
  rewrite (nmap_ext_rows _ (fun r => r)); [apply nmap_id|].
  induction Hrows as [|slice l [Hlen Hr] _ IH]; constructor; [|exact IH].
  rewrite zip_with_replicate_map by lia.
  clear Hlen. induction Hr as [|u k (w & ->) _ IHk]; cbn [map]; [reflexivity|].
  now rewrite IHk, fmul_one_float32.
Qed.

Lemma rms_unscaled_float_rounded (a : autocast_state) (x : Tensor)
    (eps : spec_float) (n : nat) :
  Forall (fun slice => length slice = n) (data x) ->
  t_dtype (rms_unscaled a (float x) eps) = float32 /\
  Forall (fun slice => length slice = n /\
            Forall (fun u => exists w, u = round_to float32 w) slice)
    (data (rms_unscaled a (float x) eps)).
Proof.
  intros Hlen. unfold rms_unscaled, data.
  rewrite compute_dtype_float. unfold float at 1 2. rewrite to_dtype.
  cbn [t_dtype value promote_types]. split; [reflexivity|].
  assert (Hl : Forall (fun slice => length slice = n) (data (float x))).
  { apply (Forall_lengths (fun k => k = n) (data x)); [|exact Hlen].
    symmetry. apply to_lengths. }
  rewrite rows_nmap. unfold data in Hl.
  induction Hl as [|slice l Hs _ IH]; cbn [map]; [constructor|].
  constructor; [|exact IH].
  unfold rms_slice. rewrite length_map. split; [exact Hs|].
  unfold float. rewrite to_dtype. cbn [promote_types].
  generalize (rms_factor float32 (compute_conv a (to float32 x)) eps slice).
  clear. intros f. induction slice as [|v l IHl]; cbn [map]; [constructor|].
  constructor; [|exact IHl].
  unfold fmul, binop. eexists. reflexivity.
Qed.

(** X8: the scale [RMSNorm.__init__] builds, all ones in a dtype no wider
    than float32, changes nothing: on inputs of the layer's width, on the
    device of the layer, the fresh layer with a scale returns what the
    layer without one returns. *)
Theorem ones_scale_changes_nothing
    (p : process (gmap string norm_class)) (n : nat) (eps : spec_float)
    (dtype : option dtype) (device : option string) (x : Tensor) :
  dtype <> Some float64 ->
  torch.device x = default_device device ->
  Forall (fun slice => length slice = n) (data x) ->
  RMSNorm.forward (RMSNorm.init n eps true dtype device) x p =
  RMSNorm.forward (RMSNorm.init n eps false dtype device) x p.
Proof.
  intros Hdt Hdev Hlen. rewrite !RMSNorm_forward_run.
  cbn [RMSNorm.init RMSNorm.weight RMSNorm.eps].
  destruct (rms_unscaled_float_rounded (amp p) x eps n Hlen) as [Hd Hr].
  rewrite rms_value_spec.
  - cbn [rms_norm_spec rms_value].
    rewrite (scale_by_ones _ n (default_dtype dtype) (default_device device)); auto.
    destruct dtype as [d|]; cbn; congruence.
  - eexists. split; [reflexivity|]. split.
    + cbn [ones torch.device]. unfold float. now rewrite to_keeps_device.
    + rewrite length_replicate.
      apply (Forall_lengths (fun k => k = n) (data x)); [|exact Hlen].
      symmetry. apply to_lengths.
Qed.

Lemma ones_scale_changes_nothing_witness :
  RMSNorm.forward (RMSNorm.init 4 eps_1e_05 true (Some bfloat16) None) x_scenario p_off =
  RMSNorm.forward (RMSNorm.init 4 eps_1e_05 false (Some bfloat16) None) x_scenario p_off.
Proof.
  apply (ones_scale_changes_nothing p_off 4 eps_1e_05 (Some bfloat16) None x_scenario).
  - discriminate.
  - reflexivity.
  - repeat constructor.
Defined.

(** The scale on another device than the input is refused by the
    product: the layer with a scale raises where the layer without one
    returns. *)
Example ones_scale_on_another_device :
  fst (RMSNorm.forward (RMSNorm.init 4 eps_1e_05 true None None) x_cuda p_off) =
  Raise RuntimeError /\
  exists out,
    fst (RMSNorm.forward (RMSNorm.init 4 eps_1e_05 false None None) x_cuda p_off) =
    Ok out.
Proof. split; [reflexivity | eexists; reflexivity]. Qed.

(** *** Sign symmetry *)

Lemma binary_round_aux_opp (p e : Z) (s : bool) (m ex : Z) (l : location) :
  binary_round_aux p e (negb s) m ex l = SFopp (binary_round_aux p e s m ex l).
Proof.
  unfold binary_round_aux.
  destruct (shr_fexp p e m ex l) as [mrs' e'].
  destruct (shr_fexp p e _ e' loc_Exact) as [mrs'' e''].
  destruct (shr_m mrs''); [reflexivity| |reflexivity].
  now destruct (e'' <=? e - p).
Qed.

Lemma binary_round_opp (p e : Z) (s : bool) (m : positive) (ex : Z) :
  binary_round p e (negb s) m ex = SFopp (binary_round p e s m ex).
Proof.
  unfold binary_round. destruct (shl_align m ex _) as [mz ez].
  apply binary_round_aux_opp.
Qed.

Lemma round_to_opp (d : dtype) (v : spec_float) :
  round_to d (SFopp v) = SFopp (round_to d v).
Proof. destruct v; cbn [round_to SFopp]; [reflexivity..|apply binary_round_opp]. Qed.

Lemma SFmul_opp_l (p e : Z) (a b : spec_float) :
  SFmul p e (SFopp a) b = SFopp (SFmul p e a b).
Proof.
  destruct a as [sa|sa| |sa ma ea], b as [sb|sb| |sb mb eb];
    cbn [SFmul SFopp]; try reflexivity;
    try (now destruct sa, sb).
  replace (xorb (negb sa) sb) with (negb (xorb sa sb)) by now destruct sa, sb.
  apply binary_round_aux_opp.
Qed.

Lemma SFmul_opp_opp (p e : Z) (a : spec_float) :
  SFmul p e (SFopp a) (SFopp a) = SFmul p e a a.
Proof.
  destruct a as [sa|sa| |sa ma ea]; cbn [SFmul SFopp]; try reflexivity;
    now destruct sa.
Qed.

Lemma fmul_opp_l (d : dtype) (a b : spec_float) :
  fmul d (SFopp a) b = SFopp (fmul d a b).
Proof.
  unfold fmul, binop. cbv zeta.
  now rewrite round_to_opp, SFmul_opp_l, round_to_opp.
Qed.

Lemma fmul_opp_opp (d : dtype) (a : spec_float) :
  fmul d (SFopp a) (SFopp a) = fmul d a a.
Proof.
  unfold fmul, binop. cbv zeta. now rewrite round_to_opp, SFmul_opp_opp.
Qed.

Lemma compute_conv_opp (a : autocast_state) (x : Tensor) (v : spec_float) :
  compute_conv a (neg x) (SFopp v) = SFopp (compute_conv a x v).
Proof.
  unfold compute_conv, autocast_applies, neg. cbn [t_dtype device].
  destruct (_ && _ && _); [apply round_to_opp | reflexivity].
Qed.

Lemma rms_slice_opp (a : autocast_state) (x : Tensor) (d : dtype)
    (eps : spec_float) (slice : list spec_float) :
  rms_slice (compute_dtype a x) d (compute_conv a (neg x)) eps (map SFopp slice) =
  map SFopp (rms_slice (compute_dtype a x) d (compute_conv a x) eps slice).
Proof.
  unfold rms_slice.
  assert (E : rms_factor (compute_dtype a x) (compute_conv a (neg x)) eps
                (map SFopp slice) =
              rms_factor (compute_dtype a x) (compute_conv a x) eps slice).
  { unfold rms_factor. do 3 f_equal. rewrite map_map. apply map_ext.
    intros v. now rewrite compute_conv_opp, fmul_opp_opp. }
  rewrite E, !map_map. apply map_ext. intros v. apply fmul_opp_l.
Qed.

Lemma rms_unscaled_neg (a : autocast_state) (x : Tensor) (eps : spec_float) :
  rms_unscaled a (neg x) eps = neg (rms_unscaled a x eps).
Proof.
  assert (Ec : compute_dtype a (neg x) = compute_dtype a x) by reflexivity.
  unfold rms_unscaled. rewrite Ec. unfold neg.
  cbn [t_dtype device value]. f_equal.
  rewrite !nmap_nmap. apply nmap_ext. intros slice. apply rms_slice_opp.
Qed.

Lemma zip_with_fmul_opp (d : dtype) (slice ws : list spec_float) :
  zip_with (fmul d) (map SFopp slice) ws = map SFopp (zip_with (fmul d) slice ws).
Proof.
  revert ws. induction slice as [|v l IH]; intros [|w ws]; cbn; try reflexivity.
  now rewrite IH, fmul_opp_l.
Qed.

Lemma scale_by_neg (w t : Tensor) : scale_by w (neg t) = neg (scale_by w t).
Proof.
  unfold scale_by, neg. cbn [t_dtype device value]. f_equal.
  rewrite !nmap_nmap. apply nmap_ext. intros slice. apply zip_with_fmul_opp.
Qed.

Lemma rms_norm_spec_neg (a : autocast_state) (x : Tensor)
    (weight : option Tensor) (eps : spec_float) :
  rms_norm_spec a (neg x) weight eps = neg (rms_norm_spec a x weight eps).
Proof.
  destruct weight as [w|]; cbn [rms_norm_spec];
    [rewrite rms_unscaled_neg; apply scale_by_neg | apply rms_unscaled_neg].
Qed.

Lemma neg_lengths (x : Tensor) : map length (data (neg x)) = map length (data x).
Proof. apply lengths_rows_nmap. intros r. apply length_map. Qed.

Lemma fits_neg (x : Tensor) (weight : option Tensor) :
  fits x weight -> fits (neg x) weight.
Proof. apply fits_transfer; [reflexivity | apply neg_lengths]. Qed.

Lemma to_neg (d : dtype) (x : Tensor) : to d (neg x) = neg (to d x).
Proof.
  unfold to. cbn [neg t_dtype]. destruct (decide (t_dtype x = d)); [reflexivity|].
  unfold neg. cbn [t_dtype device value]. f_equal.
  rewrite !nmap_nmap. apply nmap_ext. intros r. rewrite !map_map.
  apply map_ext. intros v. apply round_to_opp.
Qed.

(** X9: [rms_norm] and [RMSNorm.forward] are odd: negating every entry
    of the input negates every entry of the output. *)
Theorem rms_norm_is_odd
    (p : process (gmap string norm_class)) (self : RMSNorm.t) (x : Tensor) :
  fits x (RMSNorm.weight self) ->
  (exists out,
     rms_norm x (RMSNorm.weight self) (RMSNorm.eps self) p = (Ok out, p) /\
     rms_norm (neg x) (RMSNorm.weight self) (RMSNorm.eps self) p =
     (Ok (neg out), p)) /\
  (exists out,
     RMSNorm.forward self x p = (Ok out, p) /\
     RMSNorm.forward self (neg x) p = (Ok (neg out), p)).
Proof.
  intros Hfit. split.
  - eexists. split; [now apply rms_norm_spec_run|].
    rewrite rms_norm_spec_run by now apply fits_neg.
    now rewrite rms_norm_spec_neg.
  - assert (Hf : fits (float x) (RMSNorm.weight self)) by now apply fits_to_input.
    assert (Hn : fits (neg (float x)) (RMSNorm.weight self)) by now apply fits_neg.
    rewrite !RMSNorm_forward_run. unfold float in *. rewrite to_neg.
    rewrite (rms_value_spec _ _ _ _ Hf), (rms_value_spec _ _ _ _ Hn).
    eexists. split; [reflexivity|]. cbn [result_map neg t_dtype].
    rewrite rms_norm_spec_neg. now rewrite to_neg.
Qed.

Lemma rms_norm_is_odd_witness :
  (exists out,
     rms_norm x_scenario (RMSNorm.weight rms_layer) (RMSNorm.eps rms_layer) p_off
     = (Ok out, p_off) /\
     rms_norm (neg x_scenario) (RMSNorm.weight rms_layer) (RMSNorm.eps rms_layer) p_off
     = (Ok (neg out), p_off)) /\
  (exists out,
     RMSNorm.forward rms_layer x_scenario p_off = (Ok out, p_off) /\
     RMSNorm.forward rms_layer (neg x_scenario) p_off = (Ok (neg out), p_off)).
Proof.
  apply (rms_norm_is_odd p_off rms_layer x_scenario).
  eexists. split; [reflexivity|]. split; [reflexivity | repeat constructor].
Defined.
